(** * usque http-proxy: the request-handling engine of [cmd/httpproxy.go]

    A shallow embedding of the credential gate ([authenticate]), the
    dispatcher (the [http.HandlerFunc] closure inside [httpProxyCmd]), the
    CONNECT handler ([handleHTTPSConnect]), the forward handler
    ([handleHTTPProxy]) and [copyHeader].

    The Go standard library is not part of the repository; the pieces the
    handlers call ([http.Header], [http.Error], [http.NewRequest],
    [io.Copy], [net.Conn], [http.ResponseWriter]) are modelled after their
    documented behaviour, and everything that depends on the outside world
    (does a dial succeed, what does a peer send, does a write fail) is read
    from a [World] record the theorems quantify over. *)

From stdpp Require Import gmap strings list fin_maps.
From Stdlib Require Import Ascii String ZArith Lia.

Local Open Scope string_scope.
Local Open Scope Z_scope.

(** ** Strings that Rocq literals cannot spell directly *)

Definition DQUOTE : string := String (ascii_of_nat 34) EmptyString.
Definition CRLF : string :=
  String (ascii_of_nat 13) (String (ascii_of_nat 10) EmptyString).
Definition LF : string := String (ascii_of_nat 10) EmptyString.

(** ** [net/textproto]: header keys and the header map *)

Definition byte_between (lo hi : nat) (c : ascii) : bool :=
  (lo <=? nat_of_ascii c)%nat && (nat_of_ascii c <=? hi)%nat.

Definition isLower (c : ascii) : bool := byte_between 97 122 c.
Definition isUpper (c : ascii) : bool := byte_between 65 90 c.
Definition isDigit (c : ascii) : bool := byte_between 48 57 c.

(** The [tchar] set of RFC 7230, which Go keeps in [isTokenTable]. *)
Definition isTokenByte (c : ascii) : bool :=
  isLower c || isUpper c || isDigit c ||
  bool_decide (nat_of_ascii c ∈
    [33; 35; 36; 37; 38; 39; 42; 43; 45; 46; 94; 95; 96; 124; 126]%nat).

Definition validHeaderFieldByte := isTokenByte.

Fixpoint string_forallb (p : ascii → bool) (s : string) : bool :=
  match s with
  | EmptyString => true
  | String c s' => p c && string_forallb p s'
  end.

Definition toUpper (c : ascii) : ascii := ascii_of_nat (nat_of_ascii c - 32).
Definition toLower (c : ascii) : ascii := ascii_of_nat (nat_of_ascii c + 32).

(** The second loop of [canonicalMIMEHeaderKey]: upper-case the first letter
    and every letter after a dash, lower-case the others. *)
Fixpoint canonicalize (upper : bool) (s : string) : string :=
  match s with
  | EmptyString => EmptyString
  | String c s' =>
      let c' := if upper && isLower c then toUpper c
                else if negb upper && isUpper c then toLower c
                else c in
      String c' (canonicalize (bool_decide (c' = "-"%char)) s')
  end.

(** A key holding a byte that is not a token byte (a space included) is
    returned unchanged. *)
Definition CanonicalMIMEHeaderKey (s : string) : string :=
  if string_forallb validHeaderFieldByte s then canonicalize true s else s.

(** [http.Header] is [map[string][]string]. *)
Abbreviation HeaderMap := (gmap string (list string)).

(** [h[k]]: indexing a Go map gives the zero value, a nil slice, for a
    missing key. *)
Definition Header_index (h : HeaderMap) (k : string) : list string :=
  default [] (h !! k).

Definition Header_Get (h : HeaderMap) (key : string) : string :=
  match Header_index h (CanonicalMIMEHeaderKey key) with
  | [] => EmptyString
  | v :: _ => v
  end.

Definition Header_Set (h : HeaderMap) (key value : string) : HeaderMap :=
  <[CanonicalMIMEHeaderKey key := [value]]> h.

Definition Header_Add (h : HeaderMap) (key value : string) : HeaderMap :=
  let key := CanonicalMIMEHeaderKey key in
  <[key := (Header_index h key ++ [value])%list]> h.

Definition Header_Del (h : HeaderMap) (key : string) : HeaderMap :=
  delete (CanonicalMIMEHeaderKey key) h.

(** [copyHeader], lines 292-298.  Go ranges over [src] in an unspecified
    order, so the loop is written over the list of entries it visits;
    [copyHeader] itself takes stdpp's enumeration of the map, and
    [copyHeader_over_index] below holds for every enumeration. *)
Definition copyHeader_over (entries : list (string * list string))
    (dst : HeaderMap) : HeaderMap :=
  foldl (λ d kvv, foldl (λ d v, Header_Add d kvv.1 v) d kvv.2) dst entries.

Definition copyHeader (dst src : HeaderMap) : HeaderMap :=
  copyHeader_over (map_to_list src) dst.

(** ** Streams and the outside world *)

(** What a reader yields: finitely many chunks, then end of file, an error,
    or nothing more while the peer keeps the stream open. *)
Inductive Ending := AtEOF | AtErr | Idle.

Record Stream := { chunks : list string; ending : Ending }.

(** The result of one [Write]: everything written with a nil error, or [n]
    bytes written and an error. *)
Inductive WriteRes := WriteOk | WriteFail (n : nat).

(** The two connections of a CONNECT session: the one [DialContext] returns
    and the one [Hijack] returns. *)
Inductive Conn := DestConn | ClientConn.

Global Instance Conn_eq_dec : EqDecision Conn.
Proof. solve_decision. Defined.

Definition Ctx := nat.
Definition Background : Ctx := 0%nat.

Record Request := {
  req_Method : string;
  req_URL : string;            (* the text [r.URL.String()] gives *)
  req_Host : string;
  req_Header : HeaderMap;
  req_Body : Stream;
  req_Ctx : Ctx;
}.

Record Response := {
  resp_StatusCode : Z;
  resp_Header : HeaderMap;
  resp_Body : Stream;
}.

Record World := {
  dial_ok : Ctx → string → string → bool;   (* does [tunNet.DialContext] succeed *)
  is_hijacker : bool;                        (* [w.(http.Hijacker)] *)
  hijack_ok : bool;                          (* does [hj.Hijack()] succeed *)
  conn_in : Conn → Stream;                   (* what [Read] on a connection yields *)
  conn_out : Conn → nat → WriteRes;          (* result of the k-th [Write] on it *)
  w_out : nat → WriteRes;                    (* result of the k-th [w.Write] *)
  url_Parse : string → option string;        (* [url.Parse], as text again *)
  url_Host : string → string;                (* the host of a parsed URL *)
  do_result : Request → option Response;     (* [client.Do] *)
}.

(** ** The credential gate, lines 216-219 *)

Definition authenticate (r : Request) (expectedAuth : string) : bool :=
  let authHeader := Header_Get (req_Header r) "Proxy-Authorization" in
  String.eqb authHeader expectedAuth.

(** ** Handler state and the handler monad *)

(** What the handler's goroutine does to its collaborators, in order. *)
Inductive Event :=
  | Dial (ctx : Ctx) (network address : string) (ok : bool)
  | Hijack (ok : bool)
  | ConnWrite (c : Conn) (data : string)
  | GoCopy (dst src : Conn)            (* [go io.Copy(dst, src)] spawned *)
  | CopyStart (dst src : Conn)         (* [io.Copy(dst, src)] entered *)
  | ConnClose (c : Conn)
  | ClientDo (req : Request) (ok : bool)
  | BodyClose (b : Stream).

(** An [http.ResponseWriter]: the header map [w.Header()] returns, the
    status committed by the first [WriteHeader] together with the headers
    as they were at that moment, and the body data accepted so far. *)
Record ResponseWriter := {
  w_header : HeaderMap;
  w_status : option Z;
  w_sent : HeaderMap;
  w_body : list string;
  w_writes : nat;
}.

Definition fresh_w : ResponseWriter :=
  {| w_header := ∅; w_status := None; w_sent := ∅; w_body := []; w_writes := 0 |}.

Record HState := {
  rw : ResponseWriter;
  trace : list Event;
  deferred : list Event;      (* pending [defer]s, the latest first *)
  client_writes : nat;        (* [Write] calls made on the client connection *)
  dest_writes : nat;
}.

Definition init_state : HState :=
  {| rw := fresh_w; trace := []; deferred := []; client_writes := 0; dest_writes := 0 |}.

(** A call returns a value, never returns, or panics. *)
Inductive Outcome (A : Type) := Val (a : A) | Blocks | Panics.
Arguments Val {A} a.
Arguments Blocks {A}.
Arguments Panics {A}.

Definition M (A : Type) : Type := HState → Outcome A * HState.

Global Instance M_ret : MRet M := λ A a s, (Val a, s).
Global Instance M_bind : MBind M := λ A B f m s,
  match m s with
  | (Val a, s') => f a s'
  | (Blocks, s') => (Blocks, s')
  | (Panics, s') => (Panics, s')
  end.

Definition with_rw (f : ResponseWriter → ResponseWriter) : M unit := λ s,
  (Val tt, {| rw := f (rw s); trace := trace s; deferred := deferred s;
              client_writes := client_writes s; dest_writes := dest_writes s |}).

Definition emit (e : Event) : M unit := λ s,
  (Val tt, {| rw := rw s; trace := (trace s ++ [e])%list; deferred := deferred s;
              client_writes := client_writes s; dest_writes := dest_writes s |}).

Definition defer (e : Event) : M unit := λ s,
  (Val tt, {| rw := rw s; trace := trace s; deferred := e :: deferred s;
              client_writes := client_writes s; dest_writes := dest_writes s |}).

(** A function body with its own [defer] stack: when the body returns or
    panics, the deferred calls run, the latest first; when it never returns,
    none does. *)
Definition func (body : M unit) : M unit := λ s,
  let enter := {| rw := rw s; trace := trace s; deferred := [];
                  client_writes := client_writes s; dest_writes := dest_writes s |} in
  let leave s' := {| rw := rw s'; trace := (trace s' ++ deferred s')%list;
                     deferred := deferred s;
                     client_writes := client_writes s'; dest_writes := dest_writes s' |} in
  match body enter with
  | (Val _, s') => (Val tt, leave s')
  | (Panics, s') => (Panics, leave s')
  | (Blocks, s') => (Blocks, s')
  end.

(** [w.Header().Set], [.Del] and [copyHeader(w.Header(), src)] mutate the map
    the writer holds. *)
Definition w_Header (f : HeaderMap → HeaderMap) : M unit :=
  with_rw (λ w, {| w_header := f (w_header w); w_status := w_status w;
                   w_sent := w_sent w; w_body := w_body w; w_writes := w_writes w |}).

Definition commit (code : Z) (w : ResponseWriter) : ResponseWriter :=
  match w_status w with
  | Some _ => w
  | None => {| w_header := w_header w; w_status := Some code;
               w_sent := w_header w; w_body := w_body w; w_writes := w_writes w |}
  end.

(** [WriteHeader] does nothing once a status is committed, panics on a code
    outside 100..999, passes a 1xx code other than 101 on without committing
    it, and commits any other code. *)
Definition checkWriteHeaderCode (code : Z) : bool := (100 <=? code) && (code <=? 999).

Definition informational (code : Z) : bool :=
  (100 <=? code) && (code <=? 199) && negb (code =? 101).

Definition WriteHeader (code : Z) : M unit := λ s,
  match w_status (rw s) with
  | Some _ => (Val tt, s)
  | None =>
      if negb (checkWriteHeaderCode code) then (Panics, s)
      else if informational code then (Val tt, s)
      else with_rw (commit code) s
  end.

Definition accepted (res : WriteRes) (data : string) : string :=
  match res with
  | WriteOk => data
  | WriteFail n => substring 0 n data
  end.

Definition StatusOK : Z := 200.
Definition StatusBadRequest : Z := 400.
Definition StatusProxyAuthRequired : Z := 407.
Definition StatusInternalServerError : Z := 500.
Definition StatusServiceUnavailable : Z := 503.
Definition MethodConnect : string := "CONNECT".

(** [io.Writer] and [io.Reader], the two interfaces [io.Copy] works on. *)
Class Writer (T : Type) := Write : T → string → M WriteRes.
Class Reader (T : Type) := Read : T → Stream.

(** The loop of [io.Copy]: a chunk read is written out; the copy ends at the
    first write that reports an error or comes up short, at end of file and
    at a read error; it waits for ever on a source that stays open and
    silent.  A read of no bytes is not written. *)
Fixpoint copy_loop {D} `{!Writer D} (dst : D) (cs : list string) (e : Ending) : M unit :=
  match cs with
  | [] => match e with
          | Idle => λ s, (Blocks, s)
          | _ => mret tt
          end
  | c :: cs' =>
      if bool_decide (c = EmptyString) then copy_loop dst cs' e
      else res ← Write dst c;
           match res with
           | WriteOk => copy_loop dst cs' e
           | WriteFail _ => mret tt
           end
  end.

Definition io_Copy {D R} `{!Writer D, !Reader R} (dst : D) (src : R) : M unit :=
  copy_loop dst (chunks (Read src)) (ending (Read src)).

(** The response writer as a value the handlers pass around. *)
Inductive Sink := TheResponseWriter.

Definition SuccessLine : string :=
  "HTTP/1.1 200 Connection Established" ++ CRLF ++ CRLF.

Definition Challenge : string := "Basic realm=" ++ DQUOTE ++ "Proxy" ++ DQUOTE.

Section Handlers.
Variable W : World.

Definition w_Write (data : string) : M WriteRes := λ s,
  let w := commit StatusOK (rw s) in
  let res := w_out W (w_writes w) in
  (Val res,
   {| rw := {| w_header := w_header w; w_status := w_status w; w_sent := w_sent w;
               w_body := (w_body w ++ [accepted res data])%list;
               w_writes := S (w_writes w) |};
      trace := trace s; deferred := deferred s;
      client_writes := client_writes s; dest_writes := dest_writes s |}).

Definition conn_Write (c : Conn) (data : string) : M WriteRes := λ s,
  let k := match c with ClientConn => client_writes s | DestConn => dest_writes s end in
  (Val (conn_out W c k),
   {| rw := rw s; trace := (trace s ++ [ConnWrite c data])%list; deferred := deferred s;
      client_writes := match c with ClientConn => S k | DestConn => client_writes s end;
      dest_writes := match c with DestConn => S k | ClientConn => dest_writes s end |}).

Global Instance Sink_Writer : Writer Sink := λ _, w_Write.
Global Instance Conn_Writer : Writer Conn := conn_Write.
Global Instance Conn_Reader : Reader Conn := conn_in W.
Global Instance Stream_Reader : Reader Stream := λ b, b.

(** [http.Error]: drop Content-Length, set the two text headers, commit
    the status, print the message and a newline; the result of the print
    is not looked at. *)
Definition http_Error (msg : string) (code : Z) : M unit :=
  w_Header (λ h, Header_Del h "Content-Length");;
  w_Header (λ h, Header_Set h "Content-Type" "text/plain; charset=utf-8");;
  w_Header (λ h, Header_Set h "X-Content-Type-Options" "nosniff");;
  WriteHeader code;;
  _ ← w_Write (msg ++ LF);
  mret tt.

Definition DialContext (ctx : Ctx) (network address : string) : M (option Conn) :=
  let ok := dial_ok W ctx network address in
  emit (Dial ctx network address ok);;
  mret (if ok then Some DestConn else None).

Definition Hijack_call : M (option Conn) :=
  emit (Hijack (hijack_ok W));;
  mret (if hijack_ok W then Some ClientConn else None).

Definition go_Copy (dst src : Conn) : M unit := emit (GoCopy dst src).

(** [handleHTTPSConnect], lines 227-252. *)
Definition handleHTTPSConnect (r : Request) : M unit := func (
  dialled ← DialContext (req_Ctx r) "tcp" (req_Host r);
  match dialled with
  | None => http_Error "Unable to connect to destination" StatusServiceUnavailable
  | Some destConn =>
      defer (ConnClose destConn);;
      if negb (is_hijacker W) then
        http_Error "Hijacking not supported" StatusInternalServerError
      else
        hijacked ← Hijack_call;
        match hijacked with
        | None => http_Error "Hijacking failed" StatusInternalServerError
        | Some clientConn =>
            defer (ConnClose clientConn);;
            _ ← Write clientConn SuccessLine;
            go_Copy destConn clientConn;;
            emit (CopyStart clientConn destConn);;
            io_Copy clientConn destConn
        end
  end).

(** [http.NewRequest]: an empty method means GET, the method must be a
    token, the URL must parse; the new request has an empty header map
    and the background context. *)
Definition validMethod (method : string) : bool :=
  negb (bool_decide (method = EmptyString)) && string_forallb isTokenByte method.

Definition NewRequest (method url : string) (body : Stream) : option Request :=
  let method := if bool_decide (method = EmptyString) then "GET" else method in
  if negb (validMethod method) then None
  else match url_Parse W url with
       | None => None
       | Some u => Some {| req_Method := method; req_URL := u; req_Host := url_Host W u;
                           req_Header := ∅; req_Body := body; req_Ctx := Background |}
       end.

Definition set_Header (req : Request) (h : HeaderMap) : Request :=
  {| req_Method := req_Method req; req_URL := req_URL req; req_Host := req_Host req;
     req_Header := h; req_Body := req_Body req; req_Ctx := req_Ctx req |}.

Definition client_Do (req : Request) : M (option Response) :=
  emit (ClientDo req (bool_decide (is_Some (do_result W req))));;
  mret (do_result W req).

(** [handleHTTPProxy], lines 260-285. *)
Definition handleHTTPProxy (r : Request) : M unit := func (
  match NewRequest (req_Method r) (req_URL r) (req_Body r) with
  | None => http_Error "Invalid request" StatusBadRequest
  | Some req =>
      let req := set_Header req (req_Header r) in
      got ← client_Do req;
      match got with
      | None => http_Error "Failed to reach destination" StatusServiceUnavailable
      | Some resp =>
          defer (BodyClose (resp_Body resp));;
          w_Header (λ dst, copyHeader dst (resp_Header resp));;
          WriteHeader (resp_StatusCode resp);;
          io_Copy TheResponseWriter (resp_Body resp)
      end
  end).

(** The handler closure of the server, lines 186-198. *)
Definition proxyHandler (authHeader : string) (r : Request) : M unit :=
  if negb (authenticate r authHeader) then
    w_Header (λ h, Header_Set h "Proxy-Authenticate" Challenge);;
    http_Error "Proxy authentication required" StatusProxyAuthRequired
  else if String.eqb (req_Method r) MethodConnect then handleHTTPSConnect r
  else handleHTTPProxy r.

End Handlers.

(** Does [io.Copy] come to an end, given the results [out] of the writes
    from the [k]-th on?  The pure reading of [copy_loop]. *)
Fixpoint copy_ends (out : nat → WriteRes) (k : nat) (cs : list string) (e : Ending) : bool :=
  match cs with
  | [] => match e with
          | Idle => false
          | _ => true
          end
  | c :: cs' =>
      if bool_decide (c = EmptyString) then copy_ends out k cs' e
      else match out k with
           | WriteOk => copy_ends out (S k) cs' e
           | WriteFail _ => true
           end
  end.

(** ** Reading a trace *)

Definition count (p : Event → bool) (t : list Event) : nat :=
  List.length (List.filter p t).

Definition opens_conn (e : Event) : bool :=
  match e with
  | Dial _ _ _ ok => ok
  | _ => false
  end.

Definition closes_conn (c : Conn) (e : Event) : bool :=
  match e with
  | ConnClose c' => bool_decide (c' = c)
  | _ => false
  end.

Definition opens_body (e : Event) : bool :=
  match e with
  | ClientDo _ ok => ok
  | _ => false
  end.

Definition closes_body (e : Event) : bool :=
  match e with
  | BodyClose _ => true
  | _ => false
  end.

(** A [Write] on the client connection. *)
Definition client_write (e : Event) : bool :=
  match e with
  | ConnWrite ClientConn _ => true
  | _ => false
  end.

(** The world [W] with the result of the first [Write] on the client
    connection, the one that carries the success line, replaced. *)
Definition with_first_client_write (W : World) (res : WriteRes) : World :=
  {| dial_ok := dial_ok W; is_hijacker := is_hijacker W; hijack_ok := hijack_ok W;
     conn_in := conn_in W;
     conn_out := λ c k, match c, k with
                        | ClientConn, O => res
                        | _, _ => conn_out W c k
                        end;
     w_out := w_out W; url_Parse := url_Parse W; url_Host := url_Host W;
     do_result := do_result W |}.



(** ** The relay, lines 246-252, with its two goroutines

    After the success line the handler spawns [io.Copy(destConn, clientConn)]
    and runs [io.Copy(clientConn, destConn)] itself; when its own copy is
    over it returns, which runs the two deferred [Close] calls.  The two
    goroutines take turns in any order; a goroutine whose [Read] has nothing
    to deliver cannot move.  A connection closed by the handler fails every
    later [Read] and [Write] on it. *)
Module Relay.

Inductive MainPc := Copying | ClosingClient | ClosingDest | Returned.
Inductive BgPc := BgCopying | BgDone.
Inductive Task := Main | Bg.

Record State := {
  main : MainPc;
  bg : BgPc;
  from_dest : list string;      (* chunks [destConn.Read] has yet to yield *)
  from_client : list string;
  to_client : nat;              (* [Write] calls made on [clientConn] *)
  to_dest : nat;
  client_closed : nat;          (* [Close] calls made on [clientConn] *)
  dest_closed : nat;
}.

(** One turn of the [io.Copy] loop. *)
Inductive Iter := Next (rest : list string) (wrote : bool) | Over (wrote : bool) | Waits.

Definition copy_iter (src_closed dst_closed : bool) (cs : list string)
    (e : Ending) (res : WriteRes) : Iter :=
  if src_closed then Over false
  else match cs with
       | [] => match e with
               | Idle => Waits
               | _ => Over false
               end
       | c :: cs' =>
           if bool_decide (c = EmptyString) then Next cs' false
           else if dst_closed then Over true
           else match res with
                | WriteOk => Next cs' true
                | WriteFail _ => Over true
                end
       end.

Definition bump (wrote : bool) (k : nat) : nat := if wrote then S k else k.

Section Steps.
Variable W : World.

(** The relay starts once the success line, write number 0 on the client
    connection, has been issued. *)
Definition start : State :=
  {| main := Copying; bg := BgCopying;
     from_dest := chunks (conn_in W DestConn);
     from_client := chunks (conn_in W ClientConn);
     to_client := 1; to_dest := 0; client_closed := 0; dest_closed := 0 |}.

Definition step_main (s : State) : option State :=
  match main s with
  | Copying =>
      match copy_iter false false (from_dest s) (ending (conn_in W DestConn))
              (conn_out W ClientConn (to_client s)) with
      | Next rest wrote =>
          Some {| main := Copying; bg := bg s; from_dest := rest;
                  from_client := from_client s;
                  to_client := bump wrote (to_client s); to_dest := to_dest s;
                  client_closed := client_closed s; dest_closed := dest_closed s |}
      | Over wrote =>
          Some {| main := ClosingClient; bg := bg s; from_dest := from_dest s;
                  from_client := from_client s;
                  to_client := bump wrote (to_client s); to_dest := to_dest s;
                  client_closed := client_closed s; dest_closed := dest_closed s |}
      | Waits => None
      end
  | ClosingClient =>
      Some {| main := ClosingDest; bg := bg s; from_dest := from_dest s;
              from_client := from_client s;
              to_client := to_client s; to_dest := to_dest s;
              client_closed := S (client_closed s); dest_closed := dest_closed s |}
  | ClosingDest =>
      Some {| main := Returned; bg := bg s; from_dest := from_dest s;
              from_client := from_client s;
              to_client := to_client s; to_dest := to_dest s;
              client_closed := client_closed s; dest_closed := S (dest_closed s) |}
  | Returned => None
  end.

Definition step_bg (s : State) : option State :=
  match bg s with
  | BgCopying =>
      match copy_iter (negb (client_closed s =? 0)%nat) (negb (dest_closed s =? 0)%nat)
              (from_client s) (ending (conn_in W ClientConn))
              (conn_out W DestConn (to_dest s)) with
      | Next rest wrote =>
          Some {| main := main s; bg := BgCopying; from_dest := from_dest s;
                  from_client := rest;
                  to_client := to_client s; to_dest := bump wrote (to_dest s);
                  client_closed := client_closed s; dest_closed := dest_closed s |}
      | Over wrote =>
          Some {| main := main s; bg := BgDone; from_dest := from_dest s;
                  from_client := from_client s;
                  to_client := to_client s; to_dest := bump wrote (to_dest s);
                  client_closed := client_closed s; dest_closed := dest_closed s |}
      | Waits => None
      end
  | BgDone => None
  end.

Definition step (t : Task) (s : State) : option State :=
  match t with
  | Main => step_main s
  | Bg => step_bg s
  end.

(** Run a schedule; [None] when it names a goroutine that cannot move. *)
Fixpoint exec (sched : list Task) (s : State) : option State :=
  match sched with
  | [] => Some s
  | t :: sched' =>
      match step t s with
      | Some s' => exec sched' s'
      | None => None
      end
  end.

(** No goroutine can move. *)
Definition quiescent (s : State) : bool :=
  bool_decide (step_main s = None) && bool_decide (step_bg s = None).

(** Does the handler's own copy, destination to client, end? *)
Definition dest_copy_ends : bool :=
  copy_ends (conn_out W ClientConn) 1
    (chunks (conn_in W DestConn)) (ending (conn_in W DestConn)).

Definition rank (s : State) : nat :=
  (match main s with
   | Copying => 3 | ClosingClient => 2 | ClosingDest => 1 | Returned => 0
   end + List.length (from_dest s) +
   match bg s with BgCopying => 1 | BgDone => 0 end + List.length (from_client s))%nat.

Definition inv (s : State) : Prop :=
  match main s with
  | Copying =>
      client_closed s = 0%nat ∧ dest_closed s = 0%nat ∧
      copy_ends (conn_out W ClientConn) (to_client s) (from_dest s)
        (ending (conn_in W DestConn)) = dest_copy_ends
  | ClosingClient =>
      client_closed s = 0%nat ∧ dest_closed s = 0%nat ∧ dest_copy_ends = true
  | ClosingDest =>
      client_closed s = 1%nat ∧ dest_closed s = 0%nat ∧ dest_copy_ends = true
  | Returned =>
      client_closed s = 1%nat ∧ dest_closed s = 1%nat ∧ dest_copy_ends = true
  end.
End Steps.

(** The client hangs up at once; the destination stays open and silent. *)
Definition client_hangs_up : World :=
  {| dial_ok := λ _ _ _, true; is_hijacker := true; hijack_ok := true;
     conn_in := λ c, match c with
                     | ClientConn => {| chunks := []; ending := AtEOF |}
                     | DestConn => {| chunks := []; ending := Idle |}
                     end;
     conn_out := λ _ _, WriteOk; w_out := λ _, WriteOk;
     url_Parse := λ u, Some u; url_Host := λ u, u;
     do_result := λ _, None |}.

(** The destination sends one chunk and closes; the client stays open. *)
Definition dest_hangs_up : World :=
  {| dial_ok := λ _ _ _, true; is_hijacker := true; hijack_ok := true;
     conn_in := λ c, match c with
                     | ClientConn => {| chunks := ["ping"]; ending := Idle |}
                     | DestConn => {| chunks := ["pong"]; ending := AtEOF |}
                     end;
     conn_out := λ _ _, WriteOk; w_out := λ _, WriteOk;
     url_Parse := λ u, Some u; url_Host := λ u, u;
     do_result := λ _, None |}.

End Relay.

(** The headers [http.Error] leaves in the map. *)
Definition error_headers (h : HeaderMap) : HeaderMap :=
  Header_Set (Header_Set (Header_Del h "Content-Length")
    "Content-Type" "text/plain; charset=utf-8") "X-Content-Type-Options" "nosniff".

(** ** Concrete worlds and requests *)
Module Sample.

Definition empty_body : Stream := {| chunks := []; ending := AtEOF |}.

Definition page : Response :=
  {| resp_StatusCode := 200;
     resp_Header := {[ "Content-Type" := ["text/html"];
                       "Set-Cookie" := ["a=1"; "b=2"] ]};
     resp_Body := {| chunks := ["hello"; " world"]; ending := AtEOF |} |}.

(** Every dial, hijack and write succeeds; the destination answers "pong"
    and closes; the upstream serves [page]. *)
Definition reachable : World :=
  {| dial_ok := λ _ _ _, true; is_hijacker := true; hijack_ok := true;
     conn_in := λ c, match c with
                     | ClientConn => {| chunks := ["ping"]; ending := Idle |}
                     | DestConn => {| chunks := ["pong"]; ending := AtEOF |}
                     end;
     conn_out := λ _ _, WriteOk; w_out := λ _, WriteOk;
     url_Parse := λ u, Some u; url_Host := λ u, u;
     do_result := λ _, Some page |}.

(** No dial succeeds and no upstream answers. *)
Definition unreachable : World :=
  {| dial_ok := λ _ _ _, false; is_hijacker := true; hijack_ok := true;
     conn_in := λ _, empty_body;
     conn_out := λ _ _, WriteOk; w_out := λ _, WriteOk;
     url_Parse := λ u, Some u; url_Host := λ u, u;
     do_result := λ _, None |}.

(** The response writer is not an [http.Hijacker]. *)
Definition not_hijackable : World :=
  {| dial_ok := λ _ _ _, true; is_hijacker := false; hijack_ok := false;
     conn_in := λ _, empty_body;
     conn_out := λ _ _, WriteOk; w_out := λ _, WriteOk;
     url_Parse := λ u, Some u; url_Host := λ u, u;
     do_result := λ _, None |}.

(** No URL parses. *)
Definition unparseable : World :=
  {| dial_ok := λ _ _ _, true; is_hijacker := true; hijack_ok := true;
     conn_in := λ _, empty_body;
     conn_out := λ _ _, WriteOk; w_out := λ _, WriteOk;
     url_Parse := λ _, None; url_Host := λ u, u;
     do_result := λ _, Some page |}.



Definition connect_request : Request :=
  {| req_Method := "CONNECT"; req_URL := "//example.test:443";
     req_Host := "example.test:443"; req_Header := ∅;
     req_Body := empty_body; req_Ctx := 7%nat |}.

Definition get_request : Request :=
  {| req_Method := "GET"; req_URL := "http://example.test/index.html";
     req_Host := "example.test";
     req_Header := {[ "Accept" := ["*/*"]; "Connection" := ["keep-alive"] ]};
     req_Body := empty_body; req_Ctx := 7%nat |}.

(** A GET that presents credentials, as a client configured with a proxy
    user and password sends it. *)
Definition get_with_credentials : Request :=
  {| req_Method := "GET"; req_URL := "http://example.test/index.html";
     req_Host := "example.test";
     req_Header := {[ "Proxy-Authorization" := ["Basic YWxpY2U6c2VjcmV0"] ]};
     req_Body := empty_body; req_Ctx := 7%nat |}.

Definition token : string := "Basic YWxpY2U6c2VjcmV0".

(** The schedule main, background, main, main, main, background. *)
Definition schedule : list Relay.Task :=
  [Relay.Main; Relay.Bg; Relay.Main; Relay.Main; Relay.Main; Relay.Bg].

Definition relay_done : Relay.State :=
  {| Relay.main := Relay.Returned; Relay.bg := Relay.BgDone;
     Relay.from_dest := []; Relay.from_client := [];
     Relay.to_client := 2; Relay.to_dest := 1;
     Relay.client_closed := 1; Relay.dest_closed := 1 |}.

(** The background copy is over, the handler still waits on the
    destination, no connection is closed. *)
Definition relay_stuck : Relay.State :=
  {| Relay.main := Relay.Copying; Relay.bg := Relay.BgDone;
     Relay.from_dest := []; Relay.from_client := [];
     Relay.to_client := 1; Relay.to_dest := 0;
     Relay.client_closed := 0; Relay.dest_closed := 0 |}.

End Sample.

(** ** More readers of a trace *)

(** The data of the [Write] calls made on connection [c], in order. *)
Definition writes_to (c : Conn) (t : list Event) : list string :=
  omap (λ e, match e with
             | ConnWrite c' data => if bool_decide (c' = c) then Some data else None
             | _ => None
             end) t.

(** The chunks [io.Copy] writes out: a read of no bytes is skipped. *)
Definition nonempty_chunks (cs : list string) : list string :=
  filter (λ c, c ≠ EmptyString) cs.



(** ** The command line: [init], lines 300-316

    [pflag] is not part of the repository.  A flag set keeps the registered
    flags by name and by shorthand; registering a name or a shorthand a
    second time panics, and a typed getter fails on a name that is not
    registered or is registered at another type. *)

Inductive FlagValue :=
  | FString (s : string)
  | FInt (n : Z)
  | FUint16 (n : Z)
  | FBool (b : bool)
  | FDuration (ns : Z)
  | FStringArray (l : list string).

Record Flag := { flag_name : string; flag_shorthand : string; flag_value : FlagValue }.

Record FlagSet := {
  formal : gmap string FlagValue;       (* the flags by name *)
  shorthands : gmap string string;      (* shorthand to name *)
}.

Definition no_flags : FlagSet := {| formal := ∅; shorthands := ∅ |}.

(** [FlagSet.AddFlag]; [None] is a panic. *)
Definition AddFlag (fs : FlagSet) (f : Flag) : option FlagSet :=
  if bool_decide (is_Some (formal fs !! flag_name f)) then None
  else
    let formal' := <[flag_name f := flag_value f]> (formal fs) in
    if bool_decide (flag_shorthand f = EmptyString)
    then Some {| formal := formal'; shorthands := shorthands fs |}
    else if (1 <? String.length (flag_shorthand f))%nat then None
    else if bool_decide (is_Some (shorthands fs !! flag_shorthand f)) then None
    else Some {| formal := formal';
                 shorthands := <[flag_shorthand f := flag_name f]> (shorthands fs) |}.

Definition register_all (flags : list Flag) : option FlagSet :=
  foldl (λ acc f, match acc with Some fs => AddFlag fs f | None => None end)
    (Some no_flags) flags.

(** [time.Second], in nanoseconds. *)
Definition Second : Z := 1000000000.

(** The registrations of [init], in order.  [internal.ConnectSNI] is a
    constant of a package outside [src/]; it is a parameter here. *)
Definition registrations (ConnectSNI : string) : list Flag :=
  [ {| flag_name := "bind"; flag_shorthand := "b"; flag_value := FString "0.0.0.0" |};
    {| flag_name := "port"; flag_shorthand := "p"; flag_value := FString "8000" |};
    {| flag_name := "username"; flag_shorthand := "u"; flag_value := FString EmptyString |};
    {| flag_name := "password"; flag_shorthand := "w"; flag_value := FString EmptyString |};
    {| flag_name := "connect-port"; flag_shorthand := "P"; flag_value := FInt 443 |};
    {| flag_name := "dns"; flag_shorthand := "d";
       flag_value := FStringArray ["9.9.9.9"; "149.112.112.112"; "2620:fe::fe"; "2620:fe::9"] |};
    {| flag_name := "ipv6"; flag_shorthand := "6"; flag_value := FBool false |};
    {| flag_name := "no-tunnel-ipv4"; flag_shorthand := "F"; flag_value := FBool false |};
    {| flag_name := "no-tunnel-ipv6"; flag_shorthand := "S"; flag_value := FBool false |};
    {| flag_name := "sni-address"; flag_shorthand := "s"; flag_value := FString ConnectSNI |};
    {| flag_name := "keepalive-period"; flag_shorthand := "k";
       flag_value := FDuration (30 * Second) |};
    {| flag_name := "mtu"; flag_shorthand := "m"; flag_value := FInt 1280 |};
    {| flag_name := "initial-packet-size"; flag_shorthand := "i"; flag_value := FUint16 1242 |};
    {| flag_name := "reconnect-delay"; flag_shorthand := "r";
       flag_value := FDuration (1 * Second) |} ].

Definition init (ConnectSNI : string) : option FlagSet :=
  register_all (registrations ConnectSNI).

Definition GetString (fs : FlagSet) (name : string) : option string :=
  match formal fs !! name with Some (FString s) => Some s | _ => None end.

Definition GetInt (fs : FlagSet) (name : string) : option Z :=
  match formal fs !! name with Some (FInt n) => Some n | _ => None end.

Definition GetUint16 (fs : FlagSet) (name : string) : option Z :=
  match formal fs !! name with Some (FUint16 n) => Some n | _ => None end.

Definition GetBool (fs : FlagSet) (name : string) : option bool :=
  match formal fs !! name with Some (FBool b) => Some b | _ => None end.

Definition GetDuration (fs : FlagSet) (name : string) : option Z :=
  match formal fs !! name with Some (FDuration d) => Some d | _ => None end.

Definition GetStringArray (fs : FlagSet) (name : string) : option (list string) :=
  match formal fs !! name with Some (FStringArray l) => Some l | _ => None end.

Definition same_type (a b : FlagValue) : bool :=
  match a, b with
  | FString _, FString _ | FInt _, FInt _ | FUint16 _, FUint16 _
  | FBool _, FBool _ | FDuration _, FDuration _ | FStringArray _, FStringArray _ => true
  | _, _ => false
  end.

(** What parsing a command line does to a flag set: every registered flag
    is still there, at its type, with the default or the value given. *)
Definition parsed_from (defaults flags : FlagSet) : Prop :=
  ∀ name v, formal defaults !! name = Some v →
    ∃ v', formal flags !! name = Some v' ∧ same_type v v' = true.

(** ** Start-up: the [Run] function of [httpProxyCmd], lines 23-205

    The packages [config], [internal], [api] and [netstack] are outside
    [src/]; what [Run] asks of them is read from an [Env].  Keys,
    certificates, TLS configurations and devices are opaque tokens,
    addresses are kept as the text they were parsed from. *)

Record Env := {
  ConfigLoaded : bool;
  EndpointV4 : string;
  EndpointV6 : string;
  IPv4 : string;
  IPv6 : string;
  GetEcPrivateKey : option nat;
  GetEcEndpointPublicKey : option nat;
  GenerateCert : nat → option nat;
  PrepareTlsConfig : nat → nat → nat → string → option nat;
  ParseIP : string → option string;          (* [net.ParseIP]: nil when it fails *)
  ParseAddr : string → option string;        (* [netip.ParseAddr] *)
  CreateNetTUN : list string → list string → Z → option nat;
  LoginToBase64 : string → string → string;
}.

Definition string_existsb (p : ascii → bool) (s : string) : bool :=
  negb (string_forallb (λ c, negb (p c)) s).

(** [net.JoinHostPort] puts a host that holds a colon in brackets. *)
Definition JoinHostPort (host port : string) : string :=
  if string_existsb (λ c, bool_decide (c = ":"%char)) host
  then "[" ++ host ++ "]:" ++ port
  else host ++ ":" ++ port.

(** What [Run] has put together when it starts to serve. *)
Record Setup := {
  su_tlsConfig : nat;
  su_keepalivePeriod : Z;
  su_initialPacketSize : Z;
  su_endpoint : option string * Z;       (* IP and port of the [net.UDPAddr] *)
  su_localAddresses : list string;
  su_dnsAddrs : list string;
  su_mtu : Z;
  su_warned : bool;                      (* the MTU warning was logged *)
  su_authHeader : string;
  su_reconnectDelay : Z;
  su_tunDev : nat;
  su_Addr : string;                      (* [server.Addr] *)
}.

(** [Run] prints a message and returns, or reaches [ListenAndServe]. *)
Inductive Started := Refused (msg : string) | Serving (st : Setup).

Definition or_refuse {A} (got : option A) (msg : string) (k : A → Started) : Started :=
  match got with
  | Some a => k a
  | None => Refused msg
  end.

Notation "'get' x ← e 'or' msg ; k" := (or_refuse e msg (λ x, k))
  (at level 10, x name, e at level 100, msg at level 0, k at level 200, only parsing).

(** Lines 112-128: the message of the early return, or the addresses. *)
Definition local_addresses (E : Env) (tunnelIPv4 tunnelIPv6 : bool) : string + list string :=
  let localAddresses := [] in
  match (if negb tunnelIPv4 then
           match ParseAddr E (IPv4 E) with
           | None => inl "Failed to parse IPv4 address"
           | Some v4 => inr (localAddresses ++ [v4])%list
           end
         else inr localAddresses) with
  | inl msg => inl msg
  | inr localAddresses =>
      if negb tunnelIPv6 then
        match ParseAddr E (IPv6 E) with
        | None => inl "Failed to parse IPv6 address"
        | Some v6 => inr (localAddresses ++ [v6])%list
        end
      else inr localAddresses
  end.

(** The loop of lines 136-144: [None] when an address does not parse. *)
Fixpoint parse_dns (E : Env) (dnsServers dnsAddrs : list string) : option (list string) :=
  match dnsServers with
  | [] => Some dnsAddrs
  | dns :: rest =>
      match ParseAddr E dns with
      | None => None
      | Some addr => parse_dns E rest (dnsAddrs ++ [addr])%list
      end
  end.

(** Lines 155-162: the flag's value when it was read and is not empty. *)
Definition credential (got : option string) : string :=
  match got with
  | Some u => if negb (String.eqb u EmptyString) then u else EmptyString
  | None => EmptyString
  end.

(** Lines 170-173. *)
Definition authHeader_of (E : Env) (username password : string) : string :=
  if negb (String.eqb username EmptyString) && negb (String.eqb password EmptyString)
  then "Basic " ++ LoginToBase64 E username password
  else EmptyString.

Definition Run (E : Env) (flags : FlagSet) : Started :=
  if negb (ConfigLoaded E) then Refused "Config not loaded. Please register first." else
  get sni ← GetString flags "sni-address" or "Failed to get SNI address";
  get privKey ← GetEcPrivateKey E or "Failed to get private key";
  get peerPubKey ← GetEcEndpointPublicKey E or "Failed to get public key";
  get cert ← GenerateCert E privKey or "Failed to generate cert";
  get tlsConfig ← PrepareTlsConfig E privKey peerPubKey cert sni
    or "Failed to prepare TLS config";
  get keepalivePeriod ← GetDuration flags "keepalive-period"
    or "Failed to get keepalive period";
  get initialPacketSize ← GetUint16 flags "initial-packet-size"
    or "Failed to get initial packet size";
  get bindAddress ← GetString flags "bind" or "Failed to get bind address";
  get port ← GetString flags "port" or "Failed to get port";
  get connectPort ← GetInt flags "connect-port" or "Failed to get connect port";
  let endpoint :=
    match GetBool flags "ipv6" with
    | Some false => (ParseIP E (EndpointV4 E), connectPort)
    | _ => (ParseIP E (EndpointV6 E), connectPort)
    end in
  get tunnelIPv4 ← GetBool flags "no-tunnel-ipv4" or "Failed to get no tunnel IPv4";
  get tunnelIPv6 ← GetBool flags "no-tunnel-ipv6" or "Failed to get no tunnel IPv6";
  match local_addresses E tunnelIPv4 tunnelIPv6 with
  | inl msg => Refused msg
  | inr localAddresses =>
  get dnsServers ← GetStringArray flags "dns" or "Failed to get DNS servers";
  get dnsAddrs ← parse_dns E dnsServers [] or "Failed to parse DNS server";
  get mtu ← GetInt flags "mtu" or "Failed to get MTU";
  let warned := negb (mtu =? 1280) in
  let username := credential (GetString flags "username") in
  let password := credential (GetString flags "password") in
  get reconnectDelay ← GetDuration flags "reconnect-delay"
    or "Failed to get reconnect delay";
  let authHeader := authHeader_of E username password in
  get tunDev ← CreateNetTUN E localAddresses dnsAddrs mtu
    or "Failed to create virtual TUN device";
  Serving {| su_tlsConfig := tlsConfig; su_keepalivePeriod := keepalivePeriod;
             su_initialPacketSize := initialPacketSize; su_endpoint := endpoint;
             su_localAddresses := localAddresses; su_dnsAddrs := dnsAddrs;
             su_mtu := mtu; su_warned := warned; su_authHeader := authHeader;
             su_reconnectDelay := reconnectDelay; su_tunDev := tunDev;
             su_Addr := JoinHostPort bindAddress port |}
  end.

(** The messages [Run] prints when a flag cannot be read. *)
Definition flag_failures : list string :=
  [ "Failed to get SNI address"; "Failed to get keepalive period";
    "Failed to get initial packet size"; "Failed to get bind address";
    "Failed to get port"; "Failed to get connect port";
    "Failed to get no tunnel IPv4"; "Failed to get no tunnel IPv6";
    "Failed to get DNS servers"; "Failed to get MTU";
    "Failed to get reconnect delay" ].

(** ** A concrete start-up *)
Module Startup.

Definition sni : string := "consumer-masque.cloudflareclient.com".

(** The flag set after [init], no flag given on the command line. *)
Definition defaults : FlagSet := default no_flags (init sni).

(** A registered device: every key and certificate step succeeds, an
    address parses unless it is empty, the TUN device comes up. *)
Definition online : Env :=
  {| ConfigLoaded := true;
     EndpointV4 := "162.159.198.1"; EndpointV6 := "2606:4700:103::1";
     IPv4 := "172.16.0.2"; IPv6 := "2606:4700:110:8a36::2";
     GetEcPrivateKey := Some 1%nat; GetEcEndpointPublicKey := Some 2%nat;
     GenerateCert := λ _, Some 3%nat;
     PrepareTlsConfig := λ _ _ _ _, Some 4%nat;
     ParseIP := λ a, if String.eqb a EmptyString then None else Some a;
     ParseAddr := λ a, if String.eqb a EmptyString then None else Some a;
     CreateNetTUN := λ _ _ _, Some 5%nat;
     LoginToBase64 := λ u p, u ++ ":" ++ p |}.

(** The same device before registration. *)
Definition offline : Env :=
  {| ConfigLoaded := false;
     EndpointV4 := EmptyString; EndpointV6 := EmptyString;
     IPv4 := EmptyString; IPv6 := EmptyString;
     GetEcPrivateKey := None; GetEcEndpointPublicKey := None;
     GenerateCert := λ _, None;
     PrepareTlsConfig := λ _ _ _ _, None;
     ParseIP := λ _, None; ParseAddr := λ _, None;
     CreateNetTUN := λ _ _ _, None;
     LoginToBase64 := λ u p, u ++ ":" ++ p |}.

(** What [Run] serves with on [online] and [defaults]. *)
Definition setup : Setup :=
  {| su_tlsConfig := 4; su_keepalivePeriod := 30 * Second;
     su_initialPacketSize := 1242;
     su_endpoint := (Some "162.159.198.1", 443);
     su_localAddresses := ["172.16.0.2"; "2606:4700:110:8a36::2"];
     su_dnsAddrs := ["9.9.9.9"; "149.112.112.112"; "2620:fe::fe"; "2620:fe::9"];
     su_mtu := 1280; su_warned := false;
     su_authHeader := EmptyString; su_reconnectDelay := 1 * Second;
     su_tunDev := 5; su_Addr := "0.0.0.0:8000" |}.

(** [defaults] after a command line that names two DNS servers, the
    second one empty. *)
Definition bad_dns : FlagSet :=
  {| formal := <["dns" := FStringArray ["9.9.9.9"; EmptyString]]> (formal defaults);
     shorthands := shorthands defaults |}.

End Startup.

(** * Properties *)

Ltac run_handler :=
  unfold handleHTTPSConnect, handleHTTPProxy, func, DialContext, Hijack_call,
    client_Do, go_Copy, defer, emit, mbind, M_bind, mret, M_ret; simpl.

(** ** Header maps *)

Lemma Header_index_insert (h : HeaderMap) k vv k' :
  Header_index (<[k := vv]> h) k' = if decide (k = k') then vv else Header_index h k'.
Proof.
  unfold Header_index. rewrite lookup_insert. by case_decide.
Qed.

Lemma add_values_index k vv : ∀ (d : HeaderMap) k',
  Header_index (foldl (λ d v, Header_Add d k v) d vv) k' =
  if decide (CanonicalMIMEHeaderKey k = k') then (Header_index d k' ++ vv)%list
  else Header_index d k'.
Proof.
  induction vv as [|v vv IH]; intros d k'; simpl.
  - case_decide; by rewrite ?app_nil_r.
  - rewrite IH. unfold Header_Add. rewrite Header_index_insert.
    case_decide; [|done]. subst k'. by rewrite <- app_assoc.
Qed.






(** ** The handlers, branch by branch *)

Section HandlerFacts.
Variable W : World.

Lemma http_Error_frame msg code s :
  checkWriteHeaderCode code = true →
  ∃ s', http_Error W msg code s = (Val tt, s') ∧
        trace s' = trace s ∧ deferred s' = deferred s ∧
        client_writes s' = client_writes s ∧
        (w_status (rw s) = None → informational code = false →
         w_status (rw s') = Some code ∧ w_sent (rw s') = error_headers (w_header (rw s))).
Proof.
  intros Hc. unfold http_Error, mbind, M_bind, w_Header, with_rw, WriteHeader. simpl.
  destruct (w_status (rw s)) eqn:Hst; simpl.
  - eexists; split; [reflexivity|]. simpl. repeat split; intros; discriminate.
  - rewrite Hc. simpl. destruct (informational code) eqn:Hi; simpl.
    + eexists; split; [reflexivity|]. simpl. repeat split; intros; discriminate.
    + eexists; split; [reflexivity|]. simpl. unfold commit. simpl.
      split_and!; try done.
Qed.

Lemma copy_loop_conn cs e : ∀ s,
  ∃ ws s',
    @copy_loop Conn (Conn_Writer W) ClientConn cs e s =
      (if copy_ends (conn_out W ClientConn) (client_writes s) cs e
       then Val tt else Blocks, s') ∧
    trace s' = (trace s ++ ws)%list ∧ Forall (λ ev, client_write ev = true) ws ∧
    deferred s' = deferred s ∧ rw s' = rw s.
Proof.
  induction cs as [|c cs IH]; intros s; simpl.
  - exists [], s. rewrite app_nil_r. destruct e; auto.
  - case_bool_decide.
    + apply IH.
    + unfold mbind, M_bind. simpl.
      destruct (conn_out W ClientConn (client_writes s)) eqn:Hw.
      * match goal with |- context [copy_loop ClientConn cs e ?s1] =>
          destruct (IH s1) as (ws & s' & Hc & Ht & Hf & Hd & Hr) end.
        simpl in *. exists (ConnWrite ClientConn c :: ws), s'.
        rewrite Ht, <- app_assoc. simpl. split_and!; auto.
      * eexists [ConnWrite ClientConn c], _. split; [reflexivity|]. simpl.
        split_and!; auto.
Qed.

Lemma copy_loop_sink cs e : ∀ s,
  ∃ o s',
    @copy_loop Sink (Sink_Writer W) TheResponseWriter cs e s = (o, s') ∧
    o ≠ Panics ∧ trace s' = trace s ∧ deferred s' = deferred s.
Proof.
  induction cs as [|c cs IH]; intros s; simpl.
  - destruct e; eexists _, _; (split; [reflexivity|]); done.
  - case_bool_decide.
    + apply IH.
    + unfold mbind, M_bind. simpl.
      destruct (w_out W _) eqn:Hw.
      * match goal with |- context [copy_loop TheResponseWriter cs e ?s1] =>
          destruct (IH s1) as (o & s' & Hc & Ho & Ht & Hd) end.
        exists o, s'. split_and!; auto.
      * eexists _, _. split; [reflexivity|]. done.
Qed.

Lemma connect_dial_failed r s :
  dial_ok W (req_Ctx r) "tcp" (req_Host r) = false →
  ∃ s', handleHTTPSConnect W r s = (Val tt, s') ∧
        trace s' = (trace s ++ [Dial (req_Ctx r) "tcp" (req_Host r) false])%list ∧
        (w_status (rw s) = None → w_status (rw s') = Some StatusServiceUnavailable).
Proof.
  intros Hd. run_handler. rewrite Hd. simpl.
  match goal with |- context [http_Error W ?m ?c ?s1] =>
    destruct (http_Error_frame m c s1 eq_refl) as (s' & -> & Ht & Hdf & _ & Hs) end.
  simpl in *. eexists. split; [reflexivity|]. simpl. rewrite Ht, Hdf, ?app_nil_r.
  split; [done|]. intros Hn. by apply Hs.
Qed.

Lemma connect_hijack_failed r s :
  dial_ok W (req_Ctx r) "tcp" (req_Host r) = true →
  is_hijacker W && hijack_ok W = false →
  ∃ s', handleHTTPSConnect W r s = (Val tt, s') ∧
        trace s' = (trace s ++ [Dial (req_Ctx r) "tcp" (req_Host r) true] ++
                    (if is_hijacker W then [Hijack false] else []) ++
                    [ConnClose DestConn])%list ∧
        (w_status (rw s) = None → w_status (rw s') = Some StatusInternalServerError).
Proof.
  intros Hd Hh. run_handler. rewrite Hd. simpl.
  destruct (is_hijacker W) eqn:Hi; simpl in *.
  - rewrite Hh. simpl.
    match goal with |- context [http_Error W ?m ?c ?s1] =>
      destruct (http_Error_frame m c s1 eq_refl) as (s' & -> & Ht & Hdf & _ & Hs) end.
    simpl in *. eexists. split; [reflexivity|]. simpl. rewrite Ht, Hdf, <- !app_assoc.
    split; [done|]. intros Hn. by apply Hs.
  - match goal with |- context [http_Error W ?m ?c ?s1] =>
      destruct (http_Error_frame m c s1 eq_refl) as (s' & -> & Ht & Hdf & _ & Hs) end.
    simpl in *. eexists. split; [reflexivity|]. simpl. rewrite Ht, Hdf, <- !app_assoc.
    split; [done|]. intros Hn. by apply Hs.
Qed.

Lemma connect_established r s :
  dial_ok W (req_Ctx r) "tcp" (req_Host r) = true →
  is_hijacker W = true → hijack_ok W = true →
  ∃ ws s',
    handleHTTPSConnect W r s =
      (if copy_ends (conn_out W ClientConn) (S (client_writes s))
            (chunks (conn_in W DestConn)) (ending (conn_in W DestConn))
       then Val tt else Blocks, s') ∧
    trace s' = (trace s ++
      [Dial (req_Ctx r) "tcp" (req_Host r) true; Hijack true;
       ConnWrite ClientConn SuccessLine;
       GoCopy DestConn ClientConn; CopyStart ClientConn DestConn] ++ ws ++
      (if copy_ends (conn_out W ClientConn) (S (client_writes s))
            (chunks (conn_in W DestConn)) (ending (conn_in W DestConn))
       then [ConnClose ClientConn; ConnClose DestConn] else []))%list ∧
    Forall (λ ev, client_write ev = true) ws ∧
    rw s' = rw s.
Proof.
  intros Hd Hi Hh. run_handler. rewrite Hd, Hi, Hh. simpl.
  unfold io_Copy, Read, Conn_Reader.
  match goal with |- context [copy_loop ClientConn ?cs ?e ?s1] =>
    destruct (copy_loop_conn cs e s1) as (ws & s' & -> & Ht & Hf & Hdf & Hr) end.
  simpl in *. exists ws.
  destruct (copy_ends _ _ _ _); eexists; (split; [reflexivity|]); simpl;
    rewrite Ht, ?Hdf, <- ?app_assoc; simpl; rewrite ?app_nil_r; split_and!; auto.

Qed.


Lemma forward_malformed r s :
  NewRequest W (req_Method r) (req_URL r) (req_Body r) = None →
  ∃ s', handleHTTPProxy W r s = (Val tt, s') ∧ trace s' = trace s ∧
        (w_status (rw s) = None → w_status (rw s') = Some StatusBadRequest).
Proof.
  intros Hn. run_handler. rewrite Hn.
  match goal with |- context [http_Error W ?m ?c ?s1] =>
    destruct (http_Error_frame m c s1 eq_refl) as (s' & -> & Ht & Hdf & _ & Hs) end.
  simpl in *. eexists. split; [reflexivity|]. simpl. rewrite Ht, Hdf, ?app_nil_r.
  split; [done|]. intros Hst. by apply Hs.
Qed.

Lemma forward_unreachable r s out :
  NewRequest W (req_Method r) (req_URL r) (req_Body r) = Some out →
  do_result W (set_Header out (req_Header r)) = None →
  ∃ s', handleHTTPProxy W r s = (Val tt, s') ∧
        trace s' = (trace s ++ [ClientDo (set_Header out (req_Header r)) false])%list ∧
        (w_status (rw s) = None → w_status (rw s') = Some StatusServiceUnavailable).
Proof.
  intros Hn Hdo. run_handler. rewrite Hn. simpl. rewrite Hdo.
  match goal with |- context [http_Error W ?m ?c ?s1] =>
    destruct (http_Error_frame m c s1 eq_refl) as (s' & -> & Ht & Hdf & _ & Hs) end.
  simpl in *. eexists. split; [reflexivity|]. simpl. rewrite Ht, Hdf, ?app_nil_r.
  split; [done|]. intros Hst. by apply Hs.
Qed.

Lemma forward_response r s out resp :
  NewRequest W (req_Method r) (req_URL r) (req_Body r) = Some out →
  do_result W (set_Header out (req_Header r)) = Some resp →
  ∃ o s', handleHTTPProxy W r s = (o, s') ∧
          trace s' = (trace s ++ [ClientDo (set_Header out (req_Header r)) true] ++
                      match o with
                      | Blocks => []
                      | _ => [BodyClose (resp_Body resp)]
                      end)%list.
Proof.
  intros Hn Hdo. run_handler. rewrite Hn. simpl. rewrite Hdo.
  replace (bool_decide (is_Some (Some resp))) with true
    by (symmetry; apply bool_decide_eq_true; eauto).
  unfold w_Header, with_rw, WriteHeader. simpl.
  destruct (w_status (rw s)) eqn:Hst; simpl;
    [|destruct (negb (checkWriteHeaderCode _)); simpl;
      [|destruct (informational _); simpl]].
  2: { eexists _, _. split; [reflexivity|]. simpl. by rewrite <- app_assoc. }
  all: unfold io_Copy, Read, Stream_Reader;
    match goal with |- context [copy_loop TheResponseWriter ?cs ?e ?s1] =>
      destruct (copy_loop_sink cs e s1) as (o & s' & -> & Ho & Ht & Hdf) end;
    simpl in *; destruct o; [| |done];
    eexists _, _; (split; [reflexivity|]); simpl; rewrite Ht, ?Hdf, <- ?app_assoc; done.
Qed.


End HandlerFacts.

(** ** The relay *)

Section RelayFacts.
Import Relay.
Variable W : World.

Lemma copy_iter_ends out k cs e :
  match copy_iter false false cs e (out k) with
  | Next rest wrote => copy_ends out (bump wrote k) rest e = copy_ends out k cs e
                       ∧ S (List.length rest) = List.length cs
  | Over _ => copy_ends out k cs e = true
  | Waits => copy_ends out k cs e = false
  end.
Proof.
  destruct cs as [|c cs]; simpl.
  - by destruct e.
  - case_bool_decide; [done|]. by destruct (out k).
Qed.

Lemma copy_iter_shrinks a b cs e res rest wrote :
  copy_iter a b cs e res = Next rest wrote → S (List.length rest) = List.length cs.
Proof.
  unfold copy_iter. destruct a; [done|]. destruct cs as [|c cs]; [by destruct e|].
  case_bool_decide; [by intros [= <- <-]|].
  destruct b; [done|]. destruct res; [by intros [= <- <-]|done].
Qed.

Lemma step_rank t s s' : step W t s = Some s' → (rank s' < rank s)%nat.
Proof.
  destruct t; simpl.
  - unfold step_main, rank. destruct (main s).
    + destruct (copy_iter _ _ _ _ _) eqn:Hi; intros [= <-]; simpl; [|lia].
      apply copy_iter_shrinks in Hi. lia.
    + intros [= <-]; simpl; lia.
    + intros [= <-]; simpl; lia.
    + done.
  - unfold step_bg, rank. destruct (bg s); [|done].
    destruct (copy_iter _ _ _ _ _) eqn:Hi; intros [= <-]; simpl; [|lia].
    apply copy_iter_shrinks in Hi. lia.
Qed.

Lemma exec_rank sched : ∀ s s',
  exec W sched s = Some s' → (List.length sched + rank s' ≤ rank s)%nat.
Proof.
  induction sched as [|t sched IH]; intros s s'; simpl.
  - intros [= <-]. lia.
  - destruct (step W t s) as [s1|] eqn:Hs; [|done]. intros He.
    apply IH in He. apply step_rank in Hs. lia.
Qed.

Lemma inv_start : inv W (start W).
Proof. unfold inv, start. simpl. done. Qed.

Lemma inv_step t s s' : inv W s → step W t s = Some s' → inv W s'.
Proof.
  unfold inv. destruct t; simpl.
  - unfold step_main. destruct (main s) eqn:Hm.
    + intros (Hc & Hd & He).
      pose proof (copy_iter_ends (conn_out W ClientConn) (to_client s) (from_dest s)
                    (ending (conn_in W DestConn))) as Hi.
      destruct (copy_iter _ _ _ _ _); intros [= <-]; simpl.
      * destruct Hi as [Hi _]. by rewrite Hi.
      * by rewrite <- He.
    + intros (Hc & Hd & He) [= <-]; simpl. by rewrite Hc.
    + intros (Hc & Hd & He) [= <-]; simpl. by rewrite Hd.
    + done.
  - unfold step_bg. destruct (bg s); [|done].
    destruct (copy_iter _ _ _ _ _); intros Hinv [= <-]; simpl; done.
Qed.

Lemma inv_exec sched : ∀ s s', inv W s → exec W sched s = Some s' → inv W s'.
Proof.
  induction sched as [|t sched IH]; intros s s' Hinv; simpl.
  - by intros [= <-].
  - destruct (step W t s) as [s1|] eqn:Hs; [|done]. eauto using inv_step.
Qed.

Lemma quiescent_outcome s :
  inv W s → quiescent W s = true →
  if dest_copy_ends W
  then main s = Returned ∧ bg s = BgDone ∧ client_closed s = 1%nat ∧ dest_closed s = 1%nat
  else main s = Copying ∧ client_closed s = 0%nat ∧ dest_closed s = 0%nat.
Proof.
  unfold inv, quiescent. intros Hinv Hq.
  apply andb_true_iff in Hq as [Hm Hb].
  apply bool_decide_eq_true in Hm, Hb.
  unfold step_main in Hm. unfold step_bg in Hb.
  destruct (main s) eqn:Hmain; try done.
  - destruct Hinv as (Hc & Hd & He).
    pose proof (copy_iter_ends (conn_out W ClientConn) (to_client s) (from_dest s)
                  (ending (conn_in W DestConn))) as Hi.
    destruct (copy_iter _ _ _ _ _); try done.
    rewrite <- He, Hi. done.
  - destruct Hinv as (Hc & Hd & ->).
    destruct (bg s); [|done].
    rewrite Hc in Hb. simpl in Hb. done.
Qed.
End RelayFacts.

(** ** The relay: when does the handler return *)

Lemma copy_ends_closed_source out cs e : ∀ k, e ≠ Idle → copy_ends out k cs e = true.
Proof.
  induction cs as [|c cs IH]; intros k He; simpl.
  - by destruct e.
  - case_bool_decide; [by apply IH|]. destruct (out k); [by apply IH|done].
Qed.

Lemma exec_app W a : ∀ b s s1,
  Relay.exec W a s = Some s1 → Relay.exec W (a ++ b) s = Relay.exec W b s1.
Proof.
  induction a as [|t a IH]; intros b s s1; simpl.
  - by intros [= <-].
  - destruct (Relay.step W t s) as [s2|]; [|done]. apply IH.
Qed.

(** Every state has a run to a state where no goroutine can move. *)
Lemma exec_completes W n : ∀ s, (Relay.rank s < n)%nat →
  ∃ sched s', Relay.exec W sched s = Some s' ∧ Relay.quiescent W s' = true.
Proof.
  induction n as [|n IH]; intros s Hr; [lia|].
  destruct (Relay.step_main W s) as [s1|] eqn:Hm.
  - pose proof (step_rank W Relay.Main s s1 Hm) as Hlt.
    destruct (IH s1) as (sched & s' & He & Hq); [lia|].
    exists (Relay.Main :: sched), s'. simpl. by rewrite Hm.
  - destruct (Relay.step_bg W s) as [s1|] eqn:Hb.
    + pose proof (step_rank W Relay.Bg s s1 Hb) as Hlt.
      destruct (IH s1) as (sched & s' & He & Hq); [lia|].
      exists (Relay.Bg :: sched), s'. simpl. by rewrite Hb.
    + exists [], s. split; [done|]. unfold Relay.quiescent. by rewrite Hm, Hb.
Qed.

(** C3, as stated, fails when it is the client that closes first.  In the
    world [Relay.client_hangs_up] the client's stream is at end of file and
    the destination stays open and silent.  The background copy
    (client to destination) ends at once; after that no goroutine can move,
    the handler is still inside its own copy, and neither connection has
    been closed.  The handler model agrees: the call never returns and its
    trace holds no [Close]. *)
Lemma client_close_leaves_relay_waiting :
  ending (conn_in Relay.client_hangs_up ClientConn) = AtEOF ∧
  Relay.exec Relay.client_hangs_up [Relay.Bg] (Relay.start Relay.client_hangs_up)
    = Some Sample.relay_stuck ∧
  Relay.bg Sample.relay_stuck = Relay.BgDone ∧
  Relay.quiescent Relay.client_hangs_up Sample.relay_stuck = true ∧
  Relay.main Sample.relay_stuck = Relay.Copying ∧
  Relay.client_closed Sample.relay_stuck = 0%nat ∧
  Relay.dest_closed Sample.relay_stuck = 0%nat ∧
  ∃ s, handleHTTPSConnect Relay.client_hangs_up Sample.connect_request init_state
         = (Blocks, s) ∧
       count (closes_conn DestConn) (trace s) = 0%nat ∧
       count (closes_conn ClientConn) (trace s) = 0%nat.
Proof.
  split_and!; try reflexivity.
  eexists. split; [reflexivity|]. split; reflexivity.
Qed.

(** C3, amended: the handler returns when its own copy, destination to
    client, ends, and only then.  For every schedule of the two goroutines:
    the run is finite and can always be continued to a state where nobody
    can move; in such a state, if the destination-to-client copy ends (the
    destination reaches end of file or a read error, or a write to the
    client fails) the handler has returned, the background copy is over and
    each connection was closed once; otherwise the handler is still copying
    and nothing was closed.  A destination that closes its stream always
    ends that copy. *)
Theorem relay_returns_when_destination_copy_ends W sched s :
  Relay.exec W sched (Relay.start W) = Some s →
  (List.length sched ≤ Relay.rank (Relay.start W))%nat ∧
  (∃ more s', Relay.exec W (sched ++ more) (Relay.start W) = Some s' ∧
              Relay.quiescent W s' = true) ∧
  (Relay.quiescent W s = true →
   if Relay.dest_copy_ends W
   then Relay.main s = Relay.Returned ∧ Relay.bg s = Relay.BgDone ∧
        Relay.client_closed s = 1%nat ∧ Relay.dest_closed s = 1%nat
   else Relay.main s = Relay.Copying ∧
        Relay.client_closed s = 0%nat ∧ Relay.dest_closed s = 0%nat) ∧
  (ending (conn_in W DestConn) ≠ Idle → Relay.dest_copy_ends W = true).
Proof.
  intros He. split_and!.
  - pose proof (exec_rank W sched _ _ He). lia.
  - destruct (exec_completes W (S (Relay.rank s)) s) as (more & s' & Hm & Hq); [lia|].
    exists more, s'. by rewrite (exec_app W sched more _ _ He).
  - apply quiescent_outcome. eapply inv_exec; [apply inv_start|exact He].
  - intros Hend. by apply copy_ends_closed_source.
Qed.

Lemma relay_returns_when_destination_copy_ends_witness :
  Relay.exec Relay.dest_hangs_up Sample.schedule (Relay.start Relay.dest_hangs_up)
    = Some Sample.relay_done ∧
  Relay.main Sample.relay_done = Relay.Returned ∧
  Relay.bg Sample.relay_done = Relay.BgDone ∧
  Relay.client_closed Sample.relay_done = 1%nat ∧
  Relay.dest_closed Sample.relay_done = 1%nat.
Proof.
  split; [reflexivity|].
  apply (proj1 (proj2 (proj2 (relay_returns_when_destination_copy_ends
    Relay.dest_hangs_up Sample.schedule Sample.relay_done eq_refl)))).
  reflexivity.
Defined.

(** ** The credential gate and the dispatcher *)

Lemma authenticate_spec r token :
  authenticate r token = true ↔ Header_Get (req_Header r) "Proxy-Authorization" = token.
Proof. unfold authenticate. apply String.eqb_eq. Qed.

Lemma canonical_fixed_keys :
  CanonicalMIMEHeaderKey "Content-Length" = "Content-Length" ∧
  CanonicalMIMEHeaderKey "Content-Type" = "Content-Type" ∧
  CanonicalMIMEHeaderKey "X-Content-Type-Options" = "X-Content-Type-Options" ∧
  CanonicalMIMEHeaderKey "Proxy-Authenticate" = "Proxy-Authenticate" ∧
  CanonicalMIMEHeaderKey "Proxy-Authorization" = "Proxy-Authorization".
Proof. split_and!; vm_compute; reflexivity. Qed.

(** [http.Error] touches three keys of the header map and no other. *)
Lemma error_headers_index h k :
  k ≠ "Content-Length" → k ≠ "Content-Type" → k ≠ "X-Content-Type-Options" →
  Header_index (error_headers h) k = Header_index h k.
Proof.
  intros H1 H2 H3. unfold error_headers, Header_Set, Header_Del.
  destruct canonical_fixed_keys as (-> & -> & -> & _).
  rewrite !Header_index_insert, !decide_False by done.
  unfold Header_index. by rewrite lookup_delete_ne.
Qed.

Lemma gate_rejects W token r :
  authenticate r token = false →
  ∃ s, proxyHandler W token r init_state = (Val tt, s) ∧
       w_status (rw s) = Some StatusProxyAuthRequired ∧
       Header_index (w_sent (rw s)) "Proxy-Authenticate" = [Challenge] ∧
       trace s = [].
Proof.
  intros H. unfold proxyHandler. rewrite H. cbn [negb].
  unfold mbind, M_bind, w_Header, with_rw. cbv beta iota.
  match goal with |- context [http_Error W ?m ?c ?s1] =>
    destruct (http_Error_frame W m c s1 eq_refl) as (s' & Hrun & Ht & _ & _ & Hs) end.
  destruct (Hs eq_refl eq_refl) as [Hst Hsent].
  exists s'. split; [exact Hrun|]. split; [exact Hst|]. split; [|exact Ht].
  rewrite Hsent. cbn [rw w_header init_state fresh_w].
  rewrite error_headers_index by discriminate.
  unfold Header_Set. destruct canonical_fixed_keys as (_ & _ & _ & -> & _).
  by rewrite Header_index_insert, decide_True.
Qed.

(** C1, as the code has it: with no credential configured (the token is
    empty) a request that carries a Proxy-Authorization header is refused.
    [authenticate] returns false on [Sample.get_with_credentials], and the
    dispatcher answers 407 and calls no handler: nothing is dialled and no
    upstream request is made. *)
Theorem unconfigured_gate_refuses_credentials W :
  authenticate Sample.get_with_credentials EmptyString = false ∧
  ∃ s, proxyHandler W EmptyString Sample.get_with_credentials init_state = (Val tt, s) ∧
       w_status (rw s) = Some StatusProxyAuthRequired ∧
       trace s = [].
Proof.
  split; [reflexivity|].
  destruct (gate_rejects W EmptyString Sample.get_with_credentials eq_refl)
    as (s & Hrun & Hst & _ & Htr).
  exists s. split; [exact Hrun|]. split; [exact Hst|exact Htr].
Qed.

(** C2: with a non-empty token, [authenticate] returns true exactly when the
    value of the request's Proxy-Authorization header equals the token; when
    it returns false the dispatcher answers 407 with the challenge
    [Basic realm="Proxy"] among the headers sent, and the trace stays empty:
    neither handler runs, nothing is dialled, no upstream request is made. *)
Theorem auth_gate W r token :
  token ≠ EmptyString →
  (authenticate r token = true ↔
     Header_Get (req_Header r) "Proxy-Authorization" = token) ∧
  (authenticate r token = false →
     ∃ s, proxyHandler W token r init_state = (Val tt, s) ∧
          w_status (rw s) = Some StatusProxyAuthRequired ∧
          Header_index (w_sent (rw s)) "Proxy-Authenticate" = [Challenge] ∧
          trace s = []).
Proof.
  intros _. split; [apply authenticate_spec|apply gate_rejects].
Qed.

Lemma auth_gate_witness :
  Sample.token ≠ EmptyString ∧
  authenticate Sample.get_request Sample.token = false ∧
  ∃ s, proxyHandler Sample.reachable Sample.token Sample.get_request init_state
         = (Val tt, s) ∧
       w_status (rw s) = Some StatusProxyAuthRequired ∧
       Header_index (w_sent (rw s)) "Proxy-Authenticate" = [Challenge] ∧
       trace s = [].
Proof.
  assert (Sample.token ≠ EmptyString) as Hne by discriminate.
  split; [exact Hne|]. split; [reflexivity|].
  apply (proj2 (auth_gate Sample.reachable Sample.get_request Sample.token Hne)).
  reflexivity.
Defined.

(** ** The CONNECT handler *)

(** C6: the handler's first call is [DialContext] with the request's
    context, network "tcp" and the request's Host as it stands; when that
    dial fails the handler returns with status 503 and the dial is the only
    thing it did: no hijack, no write of the success line, no copy. *)
Theorem connect_dials_authority W r :
  ∃ o s rest,
    handleHTTPSConnect W r init_state = (o, s) ∧
    trace s = Dial (req_Ctx r) "tcp" (req_Host r)
                (dial_ok W (req_Ctx r) "tcp" (req_Host r)) :: rest ∧
    (dial_ok W (req_Ctx r) "tcp" (req_Host r) = false →
       o = Val tt ∧ rest = [] ∧ w_status (rw s) = Some StatusServiceUnavailable).
Proof.
  destruct (dial_ok W (req_Ctx r) "tcp" (req_Host r)) eqn:Hd.
  - destruct (is_hijacker W && hijack_ok W) eqn:Hh.
    + apply andb_true_iff in Hh as [Hi Hk].
      destruct (connect_established W r init_state Hd Hi Hk) as (ws & s & Hrun & Ht & _).
      eexists _, s, _. split; [exact Hrun|]. split; [|done].
      rewrite Ht. reflexivity.
    + destruct (connect_hijack_failed W r init_state Hd Hh) as (s & Hrun & Ht & _).
      eexists _, s, _. split; [exact Hrun|]. split; [|done].
      rewrite Ht. reflexivity.
  - destruct (connect_dial_failed W r init_state Hd) as (s & Hrun & Ht & Hs).
    eexists _, s, []. split; [exact Hrun|]. split; [by rewrite Ht|].
    intros _. split_and!; [done..|]. by apply Hs.
Qed.

Lemma connect_dials_authority_witness :
  dial_ok Sample.unreachable 7%nat "tcp" "example.test:443" = false ∧
  ∃ o s rest,
    handleHTTPSConnect Sample.unreachable Sample.connect_request init_state = (o, s) ∧
    trace s = Dial 7%nat "tcp" "example.test:443" false :: rest ∧
    o = Val tt ∧ rest = [] ∧ w_status (rw s) = Some StatusServiceUnavailable.
Proof.
  split; [reflexivity|].
  destruct (connect_dials_authority Sample.unreachable Sample.connect_request)
    as (o & s & rest & Hrun & Ht & Hfail).
  exists o, s, rest. split; [exact Hrun|]. split; [exact Ht|]. apply Hfail. reflexivity.
Defined.

(** C7: after a successful dial, when the response writer is no
    [http.Hijacker], or is one and [Hijack] fails, the handler returns with
    status 500; after the dial (and the failed hijack) its only further call
    is the deferred [Close] of the destination connection, so the success
    line is not written and no copy starts. *)
Theorem connect_hijack_failure W r :
  dial_ok W (req_Ctx r) "tcp" (req_Host r) = true →
  is_hijacker W = false ∨ (is_hijacker W = true ∧ hijack_ok W = false) →
  ∃ s, handleHTTPSConnect W r init_state = (Val tt, s) ∧
       w_status (rw s) = Some StatusInternalServerError ∧
       trace s = (Dial (req_Ctx r) "tcp" (req_Host r) true ::
                  (if is_hijacker W then [Hijack false] else []) ++
                  [ConnClose DestConn])%list.
Proof.
  intros Hd Hh.
  assert (is_hijacker W && hijack_ok W = false) as Hh'.
  { destruct Hh as [->|[-> ->]]; reflexivity. }
  destruct (connect_hijack_failed W r init_state Hd Hh') as (s & Hrun & Ht & Hs).
  exists s. split; [exact Hrun|]. split; [by apply Hs|]. by rewrite Ht.
Qed.

Lemma connect_hijack_failure_witness :
  ∃ s, handleHTTPSConnect Sample.not_hijackable Sample.connect_request init_state
         = (Val tt, s) ∧
       w_status (rw s) = Some StatusInternalServerError ∧
       trace s = [Dial 7%nat "tcp" "example.test:443" true; ConnClose DestConn].
Proof.
  apply (connect_hijack_failure Sample.not_hijackable Sample.connect_request).
  - reflexivity.
  - left. reflexivity.
Defined.

(** C5: once dial and hijack have succeeded, the handler's next call is one
    [Write] on the client connection that carries the 39 bytes
    "HTTP/1.1 200 Connection Established", CR, LF, CR, LF; only then is the
    background copy spawned and the handler's own copy entered, and whatever
    else is written to the client comes after that. *)
Theorem success_line_precedes_relay W r :
  dial_ok W (req_Ctx r) "tcp" (req_Host r) = true →
  is_hijacker W = true → hijack_ok W = true →
  SuccessLine =
    "HTTP/1.1 200 Connection Established" ++
    String "013" (String "010" (String "013" (String "010" EmptyString))) ∧
  ∃ o s rest,
    handleHTTPSConnect W r init_state = (o, s) ∧
    trace s = ([Dial (req_Ctx r) "tcp" (req_Host r) true; Hijack true;
               ConnWrite ClientConn SuccessLine;
               GoCopy DestConn ClientConn; CopyStart ClientConn DestConn] ++ rest)%list.
Proof.
  intros Hd Hi Hk. split; [reflexivity|].
  destruct (connect_established W r init_state Hd Hi Hk) as (ws & s & Hrun & Ht & _).
  eexists _, s, _. split; [exact Hrun|]. rewrite Ht. reflexivity.
Qed.

Lemma success_line_precedes_relay_witness :
  ∃ o s rest,
    handleHTTPSConnect Sample.reachable Sample.connect_request init_state = (o, s) ∧
    trace s = ([Dial 7%nat "tcp" "example.test:443" true; Hijack true;
               ConnWrite ClientConn SuccessLine;
               GoCopy DestConn ClientConn; CopyStart ClientConn DestConn] ++ rest)%list.
Proof.
  apply (success_line_precedes_relay Sample.reachable Sample.connect_request);
    reflexivity.
Defined.

Lemma copy_loop_conn_ext W1 W2 cs e : ∀ s,
  (∀ k, (client_writes s ≤ k)%nat → conn_out W1 ClientConn k = conn_out W2 ClientConn k) →
  @copy_loop Conn (Conn_Writer W1) ClientConn cs e s =
  @copy_loop Conn (Conn_Writer W2) ClientConn cs e s.
Proof.
  induction cs as [|c cs IH]; intros s Hext; simpl; [done|].
  case_bool_decide; [by apply IH|].
  unfold mbind, M_bind. simpl. rewrite (Hext (client_writes s)) by lia.
  destruct (conn_out W2 ClientConn (client_writes s)); [|done].
  apply IH. simpl. intros k Hk. apply Hext. lia.
Qed.

(** C10: the result of the write of the success line is never looked at.
    Whatever that write returns ([res], a failure or a short write
    included) the handler behaves as when it succeeds: same outcome, same
    calls, same response writer.  In a session whose dial and hijack
    succeed it therefore goes on to spawn the background copy and to enter
    its own, and leaves the response writer as it found it: no status and
    no error message is sent. *)
Theorem success_line_result_discarded W r res :
  handleHTTPSConnect (with_first_client_write W res) r init_state =
  handleHTTPSConnect (with_first_client_write W WriteOk) r init_state ∧
  (dial_ok W (req_Ctx r) "tcp" (req_Host r) = true →
   is_hijacker W = true → hijack_ok W = true →
   ∃ o s rest,
     handleHTTPSConnect (with_first_client_write W res) r init_state = (o, s) ∧
     trace s = ([Dial (req_Ctx r) "tcp" (req_Host r) true; Hijack true;
                ConnWrite ClientConn SuccessLine;
                GoCopy DestConn ClientConn; CopyStart ClientConn DestConn] ++ rest)%list ∧
     rw s = fresh_w).
Proof.
  split.
  - run_handler.
    destruct (dial_ok W _ _ _); simpl; [|done].
    destruct (is_hijacker W); simpl; [|done].
    destruct (hijack_ok W); simpl; [|done].
    unfold io_Copy, Read, Conn_Reader. simpl.
    rewrite (copy_loop_conn_ext (with_first_client_write W res)
               (with_first_client_write W WriteOk)); [done|].
    simpl. intros [|k] Hk; [lia|done].
  - intros Hd Hi Hk.
    destruct (connect_established (with_first_client_write W res) r init_state Hd Hi Hk)
      as (ws & s & Hrun & Ht & _ & Hrw).
    eexists _, s, _. split; [exact Hrun|]. split; [|exact Hrw].
    rewrite Ht. reflexivity.
Qed.

Lemma success_line_result_discarded_witness :
  ∃ o s rest,
    handleHTTPSConnect (with_first_client_write Sample.reachable (WriteFail 0))
      Sample.connect_request init_state = (o, s) ∧
    trace s = ([Dial 7%nat "tcp" "example.test:443" true; Hijack true;
               ConnWrite ClientConn SuccessLine;
               GoCopy DestConn ClientConn; CopyStart ClientConn DestConn] ++ rest)%list ∧
    rw s = fresh_w.
Proof.
  apply (proj2 (success_line_result_discarded Sample.reachable
                  Sample.connect_request (WriteFail 0))); reflexivity.
Defined.

(** ** The forward handler *)

(** C9: when [http.NewRequest] refuses the inbound request the handler
    returns with status 400 and has called nobody: [client.Do], the only
    thing that dials on this path, is not reached.  When [client.Do] fails
    the handler returns with status 503 and that one call is all it made:
    there is no second attempt. *)
Theorem forward_failures W r :
  (NewRequest W (req_Method r) (req_URL r) (req_Body r) = None →
   ∃ s, handleHTTPProxy W r init_state = (Val tt, s) ∧
        w_status (rw s) = Some StatusBadRequest ∧ trace s = []) ∧
  (∀ out,
     NewRequest W (req_Method r) (req_URL r) (req_Body r) = Some out →
     do_result W (set_Header out (req_Header r)) = None →
     ∃ s, handleHTTPProxy W r init_state = (Val tt, s) ∧
          w_status (rw s) = Some StatusServiceUnavailable ∧
          trace s = [ClientDo (set_Header out (req_Header r)) false]).
Proof.
  split.
  - intros Hn. destruct (forward_malformed W r init_state Hn) as (s & Hrun & Ht & Hs).
    exists s. split_and!; [done| |done]. by apply Hs.
  - intros out Hn Hdo.
    destruct (forward_unreachable W r init_state out Hn Hdo) as (s & Hrun & Ht & Hs).
    exists s. split_and!; [done| |done]. by apply Hs.
Qed.

Lemma forward_failures_witness :
  (∃ s, handleHTTPProxy Sample.unparseable Sample.get_request init_state = (Val tt, s) ∧
        w_status (rw s) = Some StatusBadRequest ∧ trace s = []) ∧
  (∃ out s,
     NewRequest Sample.unreachable "GET" "http://example.test/index.html"
       Sample.empty_body = Some out ∧
     handleHTTPProxy Sample.unreachable Sample.get_request init_state = (Val tt, s) ∧
     w_status (rw s) = Some StatusServiceUnavailable ∧
     trace s = [ClientDo (set_Header out (req_Header Sample.get_request)) false]).
Proof.
  split.
  - apply (proj1 (forward_failures Sample.unparseable Sample.get_request)). reflexivity.
  - eexists. 
    destruct (proj2 (forward_failures Sample.unreachable Sample.get_request) _
                eq_refl eq_refl) as (s & Hrun & Hs & Ht).
    exists s. split; [reflexivity|]. split_and!; [exact Hrun|exact Hs|exact Ht].
Defined.





(** ** Resources *)

Lemma count_app p t1 t2 : count p (t1 ++ t2) = (count p t1 + count p t2)%nat.
Proof. unfold count. by rewrite List.filter_app, length_app. Qed.

Lemma count_client_writes p ws :
  (∀ e, client_write e = true → p e = false) →
  Forall (λ ev, client_write ev = true) ws → count p ws = 0%nat.
Proof.
  intros Hp. induction 1 as [|e ws He _ IH]; [done|].
  unfold count in *. simpl. by rewrite (Hp e He).
Qed.

Lemma client_write_not_resource e :
  client_write e = true →
  opens_conn e = false ∧ closes_conn DestConn e = false ∧
  opens_body e = false ∧ closes_body e = false.
Proof. by destruct e. Qed.

(** C4: on every execution of the dispatcher that comes to an end, by a
    return or by a panic, the destination connection was closed as many
    times as it was opened and the upstream response body was closed as
    many times as one was obtained, and each was opened at most once: what
    was opened was closed exactly once. *)
Theorem opened_closed_exactly_once W auth r o s :
  proxyHandler W auth r init_state = (o, s) → o ≠ Blocks →
  count (closes_conn DestConn) (trace s) = count opens_conn (trace s) ∧
  count closes_body (trace s) = count opens_body (trace s) ∧
  (count opens_conn (trace s) ≤ 1)%nat ∧ (count opens_body (trace s) ≤ 1)%nat.
Proof.
  unfold proxyHandler. intros Hrun Hend.
  destruct (authenticate r auth); simpl in Hrun.
  - destruct (String.eqb (req_Method r) MethodConnect).
    + destruct (dial_ok W (req_Ctx r) "tcp" (req_Host r)) eqn:Hd.
      * destruct (is_hijacker W && hijack_ok W) eqn:Hh.
        -- apply andb_true_iff in Hh as [Hi Hk].
           destruct (connect_established W r init_state Hd Hi Hk)
             as (ws & s' & Hrun' & Ht & Hws & _).
           rewrite Hrun in Hrun'. injection Hrun' as Ho <-.
           destruct (copy_ends _ _ _ _); [|done].
           rewrite Ht, !count_app.
           rewrite !(count_client_writes _ ws) by
             (done || intros e He; by destruct (client_write_not_resource e He) as (?&?&?&?)).
           vm_compute. lia.
        -- destruct (connect_hijack_failed W r init_state Hd Hh) as (s' & Hrun' & Ht & _).
           rewrite Hrun in Hrun'. injection Hrun' as _ <-. rewrite Ht.
           destruct (is_hijacker W); vm_compute; lia.
      * destruct (connect_dial_failed W r init_state Hd) as (s' & Hrun' & Ht & _).
        rewrite Hrun in Hrun'. injection Hrun' as _ <-. rewrite Ht. vm_compute. lia.
    + destruct (NewRequest W (req_Method r) (req_URL r) (req_Body r)) as [out|] eqn:Hn.
      * destruct (do_result W (set_Header out (req_Header r))) as [resp|] eqn:Hdo.
        -- destruct (forward_response W r init_state out resp Hn Hdo)
             as (o' & s' & Hrun' & Ht).
           rewrite Hrun in Hrun'. injection Hrun' as <- <-. rewrite Ht.
           destruct o; [| done |]; vm_compute; lia.
        -- destruct (forward_unreachable W r init_state out Hn Hdo) as (s' & Hrun' & Ht & _).
           rewrite Hrun in Hrun'. injection Hrun' as _ <-. rewrite Ht. vm_compute. lia.
      * destruct (forward_malformed W r init_state Hn) as (s' & Hrun' & Ht & _).
        rewrite Hrun in Hrun'. injection Hrun' as _ <-. rewrite Ht. vm_compute. lia.
  - injection Hrun as _ <-. vm_compute. lia.
Qed.

Lemma opened_closed_exactly_once_witness :
  ∃ s, proxyHandler Sample.reachable EmptyString Sample.connect_request init_state
         = (Val tt, s) ∧
       count (closes_conn DestConn) (trace s) = count opens_conn (trace s) ∧
       count closes_body (trace s) = count opens_body (trace s) ∧
       (count opens_conn (trace s) ≤ 1)%nat ∧ (count opens_body (trace s) ≤ 1)%nat.
Proof.
  destruct (connect_established Sample.reachable Sample.connect_request init_state
              eq_refl eq_refl eq_refl) as (ws & s & Hrun & _).
  exists s.
  assert (proxyHandler Sample.reachable EmptyString Sample.connect_request init_state
            = (Val tt, s)) as Hp by exact Hrun.
  split; [exact Hp|].
  apply (opened_closed_exactly_once Sample.reachable EmptyString
           Sample.connect_request (Val tt) s Hp).
  discriminate.
Defined.

(** * Further properties of the handlers *)

(** ** [copyHeader] *)

(** X1: what [copyHeader] leaves under a key, for any header map and any
    order in which the range statement visits it: the values the
    destination held, followed by the values of every visited entry whose
    key has that canonical form.  Existing values are kept, not replaced,
    and source keys that differ only in case end up under one key. *)
Theorem copyHeader_over_values entries : ∀ (dst : HeaderMap) k,
  Header_index (copyHeader_over entries dst) k =
  (Header_index dst k ++
   List.concat (filter (λ kv, CanonicalMIMEHeaderKey kv.1 = k) entries).*2)%list.
Proof.
  induction entries as [|[k0 vv] rest IH]; intros dst k.
  - simpl. by rewrite app_nil_r.
  - unfold copyHeader_over in *. simpl. rewrite IH, add_values_index.
    destruct (decide (CanonicalMIMEHeaderKey k0 = k)) as [Hk|Hk].
    + rewrite filter_cons_True by done. simpl. by rewrite app_assoc.
    + by rewrite filter_cons_False by done.
Qed.

(** ** The CONNECT handler and the relay *)

Lemma writes_to_app c t1 t2 : writes_to c (t1 ++ t2) = (writes_to c t1 ++ writes_to c t2)%list.
Proof. unfold writes_to. apply omap_app. Qed.

Lemma copy_loop_conn_writes W cs e : ∀ s,
  ∃ o s' n,
    @copy_loop Conn (Conn_Writer W) ClientConn cs e s = (o, s') ∧
    trace s' = (trace s ++ (ConnWrite ClientConn <$> take n (nonempty_chunks cs)))%list ∧
    deferred s' = deferred s ∧
    ((∀ k, conn_out W ClientConn k = WriteOk) → n = List.length (nonempty_chunks cs)).
Proof.
  induction cs as [|c cs IH]; intros s; simpl.
  - destruct e; eexists _, s, 0%nat; (split; [reflexivity|]); by rewrite app_nil_r.
  - unfold nonempty_chunks in *. case_bool_decide as Hc.
    + rewrite filter_cons_False by (intros Hne; by apply Hne). apply IH.
    + rewrite filter_cons_True by done.
      unfold mbind, M_bind. simpl.
      destruct (conn_out W ClientConn (client_writes s)) eqn:Hw.
      * match goal with |- context [copy_loop ClientConn cs e ?s1] =>
          destruct (IH s1) as (o & s' & n & Hrun & Ht & Hdf & Hall) end.
        exists o, s', (S n). split; [exact Hrun|]. split_and!.
        -- rewrite Ht. simpl. by rewrite <- app_assoc.
        -- by rewrite Hdf.
        -- intros Hok. simpl. by rewrite (Hall Hok).
      * eexists _, _, 1%nat. split; [reflexivity|]. split_and!; [done..|].
        intros Hok. by rewrite Hok in Hw.
Qed.

Lemma writes_to_cons c e t :
  writes_to c (e :: t) =
  (match e with
   | ConnWrite c' data => if bool_decide (c' = c) then [data] else []
   | _ => []
   end ++ writes_to c t)%list.
Proof.
  unfold writes_to. destruct e as [| |c' data| | | | |]; try done.
  simpl. by case_bool_decide.
Qed.

Lemma writes_to_same c l : writes_to c (ConnWrite c <$> l) = l.
Proof.
  induction l as [|d l IH]; [done|].
  rewrite fmap_cons, writes_to_cons, bool_decide_eq_true_2 by done. simpl. by rewrite IH.
Qed.

Lemma writes_to_other c c' l : c' ≠ c → writes_to c (ConnWrite c' <$> l) = [].
Proof.
  intros Hne. induction l as [|d l IH]; [done|].
  by rewrite fmap_cons, writes_to_cons, bool_decide_eq_false_2.
Qed.

(** X2: what the handler writes to the client in an established session.
    The first write is the success line; the writes after it carry the
    non-empty chunks read from the destination, unchanged and in order, as
    far as the copy got; when every write on the client connection
    succeeds, that is all of them.  The handler's own goroutine writes
    nothing to the destination. *)
Theorem connect_relays_destination_chunks W r :
  dial_ok W (req_Ctx r) "tcp" (req_Host r) = true →
  is_hijacker W = true → hijack_ok W = true →
  ∃ o s n,
    handleHTTPSConnect W r init_state = (o, s) ∧
    writes_to ClientConn (trace s) =
      SuccessLine :: take n (nonempty_chunks (chunks (conn_in W DestConn))) ∧
    writes_to DestConn (trace s) = [] ∧
    ((∀ k, conn_out W ClientConn k = WriteOk) →
     n = List.length (nonempty_chunks (chunks (conn_in W DestConn)))).
Proof.
  intros Hd Hi Hh. run_handler. rewrite Hd, Hi, Hh. simpl.
  unfold io_Copy, Read, Conn_Reader.
  match goal with |- context [copy_loop ClientConn ?cs ?e ?s1] =>
    destruct (copy_loop_conn_writes W cs e s1) as (o & s' & n & -> & Ht & Hdf & Hall) end.
  simpl in *.
  destruct o; eexists _, _, n; (split; [reflexivity|]); simpl;
    rewrite Ht, ?Hdf, ?writes_to_app, !writes_to_cons, writes_to_same,
      (writes_to_other DestConn ClientConn) by done;
    simpl; rewrite ?app_nil_r; split_and!; done.
Qed.

Lemma connect_relays_destination_chunks_witness :
  ∃ o s n,
    handleHTTPSConnect Sample.reachable Sample.connect_request init_state = (o, s) ∧
    writes_to ClientConn (trace s) = SuccessLine :: take n (nonempty_chunks ["pong"]) ∧
    writes_to DestConn (trace s) = [] ∧
    ((∀ k, conn_out Sample.reachable ClientConn k = WriteOk) →
     n = List.length (nonempty_chunks ["pong"])).
Proof.
  apply (connect_relays_destination_chunks Sample.reachable Sample.connect_request);
    reflexivity.
Defined.

(** X3: the handler model and the two-goroutine model agree on when an
    established session comes to an end: the call returns exactly when the
    destination-to-client copy of the relay ends, it then closes the client
    connection first and the destination connection second, and these are
    its last two calls; otherwise it never returns and closes neither. *)
Theorem connect_returns_with_destination_copy W r :
  dial_ok W (req_Ctx r) "tcp" (req_Host r) = true →
  is_hijacker W = true → hijack_ok W = true →
  ∃ s before,
    handleHTTPSConnect W r init_state =
      (if Relay.dest_copy_ends W then Val tt else Blocks, s) ∧
    trace s = (before ++ if Relay.dest_copy_ends W
                         then [ConnClose ClientConn; ConnClose DestConn] else [])%list ∧
    count (closes_conn ClientConn) before = 0%nat ∧
    count (closes_conn DestConn) before = 0%nat.
Proof.
  intros Hd Hi Hh.
  destruct (connect_established W r init_state Hd Hi Hh) as (ws & s & Hrun & Ht & Hws & _).
  change (copy_ends (conn_out W ClientConn) (S (client_writes init_state))
            (chunks (conn_in W DestConn)) (ending (conn_in W DestConn)))
    with (Relay.dest_copy_ends W) in *.
  exists s. eexists. split; [exact Hrun|]. split.
  - rewrite Ht. rewrite !app_assoc. reflexivity.
  - rewrite !count_app, !(count_client_writes _ ws); try done.
    + intros e He. by destruct e as [| |[]| | | | |].
    + intros e He. by destruct e as [| |[]| | | | |].
Qed.

Lemma connect_returns_with_destination_copy_witness :
  ∃ s before,
    handleHTTPSConnect Relay.client_hangs_up Sample.connect_request init_state
      = (Blocks, s) ∧
    trace s = (before ++ [])%list ∧
    count (closes_conn ClientConn) before = 0%nat ∧
    count (closes_conn DestConn) before = 0%nat.
Proof.
  apply (connect_returns_with_destination_copy Relay.client_hangs_up
           Sample.connect_request); reflexivity.
Defined.

(** ** The dispatcher *)



(** ** The relay, in every reachable state *)

(** X5: in every state the relay can reach, under every schedule, the
    client connection has been closed at most once, the destination
    connection is closed only after the client connection, and it is closed
    exactly when the handler has returned; while the handler is still
    copying nothing is closed. *)
Theorem relay_closes_in_order W sched s :
  Relay.exec W sched (Relay.start W) = Some s →
  (Relay.dest_closed s ≤ Relay.client_closed s)%nat ∧
  (Relay.client_closed s ≤ 1)%nat ∧
  (Relay.dest_closed s = 1%nat ↔ Relay.main s = Relay.Returned) ∧
  (Relay.main s = Relay.Copying → Relay.client_closed s = 0%nat).
Proof.
  intros He. pose proof (inv_exec W sched _ _ (inv_start W) He) as Hinv.
  unfold Relay.inv in Hinv.
  destruct (Relay.main s); destruct Hinv as (-> & -> & _);
    split_and!; try lia; try done; split; done.
Qed.

Lemma relay_closes_in_order_witness :
  (Relay.dest_closed Sample.relay_done ≤ Relay.client_closed Sample.relay_done)%nat ∧
  (Relay.client_closed Sample.relay_done ≤ 1)%nat ∧
  (Relay.dest_closed Sample.relay_done = 1%nat ↔
   Relay.main Sample.relay_done = Relay.Returned) ∧
  (Relay.main Sample.relay_done = Relay.Copying →
   Relay.client_closed Sample.relay_done = 0%nat).
Proof.
  apply (relay_closes_in_order Relay.dest_hangs_up Sample.schedule Sample.relay_done).
  reflexivity.
Defined.



(** * The command line *)

Lemma AddFlag_fresh fs f :
  formal fs !! flag_name f = None →
  shorthands fs !! flag_shorthand f = None →
  String.length (flag_shorthand f) = 1%nat →
  AddFlag fs f = Some {| formal := <[flag_name f := flag_value f]> (formal fs);
                         shorthands := <[flag_shorthand f := flag_name f]> (shorthands fs) |}.
Proof.
  intros Hn Hs Hl. unfold AddFlag.
  rewrite bool_decide_eq_false_2 by (rewrite Hn; by intros [? ?]).
  rewrite bool_decide_eq_false_2 by (intros He; by rewrite He in Hl).
  rewrite Hl. simpl.
  by rewrite bool_decide_eq_false_2 by (rewrite Hs; by intros [? ?]).
Qed.

(** Registering flags with fresh, distinct names and fresh, distinct
    one-character shorthands goes through, and each flag is then found
    under its name and under its shorthand. *)
Lemma register_from flags : ∀ fs0,
  NoDup (flag_name <$> flags) → NoDup (flag_shorthand <$> flags) →
  Forall (λ f, formal fs0 !! flag_name f = None ∧
               shorthands fs0 !! flag_shorthand f = None ∧
               String.length (flag_shorthand f) = 1%nat) flags →
  ∃ fs,
    foldl (λ acc f, match acc with Some fs => AddFlag fs f | None => None end)
      (Some fs0) flags = Some fs ∧
    (∀ name, name ∉ flag_name <$> flags → formal fs !! name = formal fs0 !! name) ∧
    (∀ c, c ∉ flag_shorthand <$> flags → shorthands fs !! c = shorthands fs0 !! c) ∧
    Forall (λ f, formal fs !! flag_name f = Some (flag_value f) ∧
                 shorthands fs !! flag_shorthand f = Some (flag_name f)) flags.
Proof.
  induction flags as [|f flags IH]; intros fs0 Hn Hs Hf.
  - exists fs0. simpl. split_and!; done.
  - rewrite !fmap_cons in *.
    apply NoDup_cons in Hn as [Hn1 Hn], Hs as [Hs1 Hs].
    apply Forall_cons in Hf as [(Hf1 & Hf2 & Hf3) Hf].
    simpl. rewrite (AddFlag_fresh fs0 f) by done.
    match goal with |- context [foldl _ (Some ?fs1) flags] =>
      destruct (IH fs1 Hn Hs) as (fs & Hrun & Hformal & Hshort & Hall) end.
    { apply Forall_forall. intros g Hg. rewrite Forall_forall in Hf.
      destruct (Hf g Hg) as (H1 & H2 & H3). simpl. split_and!; [| |done].
      - rewrite lookup_insert_ne; [done|]. intros Heq. apply Hn1.
        rewrite Heq. by apply list_elem_of_fmap_2.
      - rewrite lookup_insert_ne; [done|]. intros Heq. apply Hs1.
        rewrite Heq. by apply list_elem_of_fmap_2. }
    exists fs. split; [exact Hrun|]. split_and!.
    + intros name Hname. apply not_elem_of_cons in Hname as [Hne Hname].
      rewrite Hformal by done. simpl. by rewrite lookup_insert_ne.
    + intros c Hc. apply not_elem_of_cons in Hc as [Hne Hc].
      rewrite Hshort by done. simpl. by rewrite lookup_insert_ne.
    + apply Forall_cons. split; [|exact Hall].
      rewrite Hformal, Hshort by done. simpl. by rewrite !lookup_insert_eq.
Qed.

Lemma init_formal sni defaults :
  init sni = Some defaults →
  Forall (λ f, formal defaults !! flag_name f = Some (flag_value f)) (registrations sni).
Proof.
  intros Hi.
  destruct (register_from (registrations sni) no_flags) as (fs & Hrun & _ & _ & Hall).
  - apply (bool_decide_unpack _). vm_compute. exact I.
  - apply (bool_decide_unpack _). vm_compute. exact I.
  - repeat apply Forall_cons_2; try apply Forall_nil_2; split_and!; reflexivity.
  - unfold init, register_all in Hi. rewrite Hi in Hrun. injection Hrun as <-.
    eapply Forall_impl; [exact Hall|]. by intros f [? _].
Qed.

(** X7: [init] does not panic.  The fourteen registrations use pairwise
    distinct names and pairwise distinct one-character shorthands, so every
    [AddFlag] goes through, and afterwards each flag is found under its
    name with its default and under its shorthand. *)
Theorem init_registers_every_flag sni :
  ∃ fs, init sni = Some fs ∧
        Forall (λ f, formal fs !! flag_name f = Some (flag_value f) ∧
                     shorthands fs !! flag_shorthand f = Some (flag_name f))
               (registrations sni).
Proof.
  destruct (register_from (registrations sni) no_flags) as (fs & Hrun & _ & _ & Hall).
  - apply (bool_decide_unpack _). vm_compute. exact I.
  - apply (bool_decide_unpack _). vm_compute. exact I.
  - repeat apply Forall_cons_2; try apply Forall_nil_2; split_and!; reflexivity.
  - exists fs. split; [exact Hrun|exact Hall].
Qed.

(** Every flag [Run] reads is registered by [init] at the type it is read
    at, so after a command line was parsed every getter succeeds. *)
Lemma registered_getters sni defaults flags :
  init sni = Some defaults → parsed_from defaults flags →
  is_Some (GetString flags "sni-address") ∧
  is_Some (GetDuration flags "keepalive-period") ∧
  is_Some (GetUint16 flags "initial-packet-size") ∧
  is_Some (GetString flags "bind") ∧
  is_Some (GetString flags "port") ∧
  is_Some (GetInt flags "connect-port") ∧
  is_Some (GetBool flags "ipv6") ∧
  is_Some (GetBool flags "no-tunnel-ipv4") ∧
  is_Some (GetBool flags "no-tunnel-ipv6") ∧
  is_Some (GetStringArray flags "dns") ∧
  is_Some (GetInt flags "mtu") ∧
  is_Some (GetString flags "username") ∧
  is_Some (GetString flags "password") ∧
  is_Some (GetDuration flags "reconnect-delay").
Proof.
  intros Hi Hp. pose proof (init_formal sni defaults Hi) as Hall.
  unfold registrations in Hall.
  unfold GetString, GetDuration, GetUint16, GetInt, GetBool, GetStringArray.
  repeat (apply Forall_cons in Hall as [Hf Hall];
          destruct (Hp _ _ Hf) as (v & Hv & Ht); clear Hf; simpl in Hv;
          destruct v; try discriminate Ht; clear Ht; rewrite Hv; clear Hv).
  split_and!; by eexists.
Qed.

Ltac not_a_flag_failure :=
  apply (bool_decide_unpack _); vm_compute; exact I.

(** X8: [Run] never stops on reading a flag.  After [init], and whatever
    command line was parsed on top of it, none of the eleven
    "Failed to get ..." messages can be the reason [Run] returns: each name
    it asks for is registered, at the type it asks for.  What can stop it
    is the configuration, the keys, an address that does not parse and the
    TUN device. *)
Theorem run_reads_registered_flags E sni defaults flags msg :
  init sni = Some defaults → parsed_from defaults flags →
  Run E flags = Refused msg → msg ∉ flag_failures.
Proof.
  intros Hi Hp.
  destruct (registered_getters sni defaults flags Hi Hp)
    as ([sni' H1] & [ka H2] & [ips H3] & [bind H4] & [port H5] & [cport H6] & [v6 H7] &
        [t4 H8] & [t6 H9] & [dns H10] & [mtu H11] & _ & _ & [rd H14]).
  unfold Run, or_refuse, local_addresses.
  rewrite H1, H2, H3, H4, H5, H6, H8, H9, H10, H11, H14.
  destruct (ConfigLoaded E); simpl; [|intros [= <-]; not_a_flag_failure].
  destruct (GetEcPrivateKey E) as [priv|]; [|intros [= <-]; not_a_flag_failure].
  destruct (GetEcEndpointPublicKey E) as [pub|]; [|intros [= <-]; not_a_flag_failure].
  destruct (GenerateCert E priv) as [cert|]; [|intros [= <-]; not_a_flag_failure].
  destruct (PrepareTlsConfig E priv pub cert sni') as [tls|];
    [|intros [= <-]; not_a_flag_failure].
  destruct t4, t6; simpl;
    repeat (destruct (ParseAddr E _); simpl; [|intros [= <-]; not_a_flag_failure]);
    (destruct (parse_dns E dns []); simpl; [|intros [= <-]; not_a_flag_failure]);
    (destruct (CreateNetTUN E _ _ _); simpl; [|intros [= <-]; not_a_flag_failure]);
    discriminate.
Qed.

Lemma parsed_from_refl fs : parsed_from fs fs.
Proof. intros name v Hv. exists v. split; [exact Hv|by destruct v]. Qed.

Lemma run_reads_registered_flags_witness :
  init Startup.sni = Some Startup.defaults ∧
  Run Startup.offline Startup.defaults
    = Refused "Config not loaded. Please register first." ∧
  "Config not loaded. Please register first." ∉ flag_failures.
Proof.
  assert (init Startup.sni = Some Startup.defaults) as Hi by (vm_compute; reflexivity).
  split; [exact Hi|]. split; [reflexivity|].
  apply (run_reads_registered_flags Startup.offline Startup.sni Startup.defaults
           Startup.defaults _ Hi (parsed_from_refl _)).
  reflexivity.
Defined.

(** ** Start-up *)

Lemma parse_dns_acc E servers : ∀ acc,
  match parse_dns E servers acc with
  | Some r => ∃ addrs, r = (acc ++ addrs)%list ∧ Some <$> addrs = ParseAddr E <$> servers
  | None => ∃ dns, dns ∈ servers ∧ ParseAddr E dns = None
  end.
Proof.
  induction servers as [|dns rest IH]; intros acc; simpl.
  - exists []. by rewrite app_nil_r.
  - destruct (ParseAddr E dns) as [addr|] eqn:Hp.
    + specialize (IH (acc ++ [addr])%list).
      destruct (parse_dns E rest (acc ++ [addr])) as [r|].
      * destruct IH as (addrs & -> & Hm). exists (addr :: addrs).
        rewrite <- app_assoc. split; [done|]. rewrite fmap_cons. by f_equal.
      * destruct IH as (d & Hd & Hn). exists d. split; [by right|done].
    + exists dns. split; [by left|done].
Qed.

(** What [Run] has read and computed when it reaches [ListenAndServe]. *)
Lemma Run_serving E flags st :
  Run E flags = Serving st →
  ∃ bind port cport t4 t6 dns mtu,
    GetString flags "bind" = Some bind ∧ GetString flags "port" = Some port ∧
    GetInt flags "connect-port" = Some cport ∧
    GetBool flags "no-tunnel-ipv4" = Some t4 ∧ GetBool flags "no-tunnel-ipv6" = Some t6 ∧
    GetStringArray flags "dns" = Some dns ∧ GetInt flags "mtu" = Some mtu ∧
    local_addresses E t4 t6 = inr (su_localAddresses st) ∧
    parse_dns E dns [] = Some (su_dnsAddrs st) ∧
    su_mtu st = mtu ∧ su_warned st = negb (mtu =? 1280) ∧
    su_authHeader st = authHeader_of E (credential (GetString flags "username"))
                         (credential (GetString flags "password")) ∧
    su_Addr st = JoinHostPort bind port ∧
    su_endpoint st = (ParseIP E (match GetBool flags "ipv6" with
                                 | Some false => EndpointV4 E
                                 | _ => EndpointV6 E
                                 end), cport).
Proof.
  unfold Run, or_refuse.
  destruct (ConfigLoaded E); simpl; [|done].
  destruct (GetString flags "sni-address") as [sni|]; [|done].
  destruct (GetEcPrivateKey E) as [priv|]; [|done].
  destruct (GetEcEndpointPublicKey E) as [pub|]; [|done].
  destruct (GenerateCert E priv) as [cert|]; [|done].
  destruct (PrepareTlsConfig E priv pub cert sni) as [tls|]; [|done].
  destruct (GetDuration flags "keepalive-period") as [ka|]; [|done].
  destruct (GetUint16 flags "initial-packet-size") as [ips|]; [|done].
  destruct (GetString flags "bind") as [bind|]; [|done].
  destruct (GetString flags "port") as [port|]; [|done].
  destruct (GetInt flags "connect-port") as [cport|]; [|done].
  destruct (GetBool flags "no-tunnel-ipv4") as [t4|]; [|done].
  destruct (GetBool flags "no-tunnel-ipv6") as [t6|]; [|done].
  destruct (local_addresses E t4 t6) as [msg|local] eqn:Hl; [done|].
  destruct (GetStringArray flags "dns") as [dns|]; [|done].
  destruct (parse_dns E dns []) as [addrs|] eqn:Hd; [|done].
  destruct (GetInt flags "mtu") as [mtu|]; [|done].
  destruct (GetDuration flags "reconnect-delay") as [rd|]; [|done].
  destruct (CreateNetTUN E local addrs mtu) as [tun|]; [|done].
  intros [= <-]. exists bind, port, cport, t4, t6, dns, mtu. simpl.
  split_and!; try done. by destruct (GetBool flags "ipv6") as [[]|].
Qed.

(** X9: the token is empty exactly when the user name or the password is
    empty: authentication is on only when both are given, whatever
    [internal.LoginToBase64] returns. *)
Theorem auth_enabled_iff_both_given E username password :
  authHeader_of E username password = EmptyString ↔
  username = EmptyString ∨ password = EmptyString.
Proof.
  unfold authHeader_of.
  destruct (String.eqb_spec username EmptyString) as [Hu|Hu];
    destruct (String.eqb_spec password EmptyString) as [Hp|Hp]; simpl;
    (split; [try (intros _; by auto); discriminate|try done; by intros [?|?]]).
Qed.

Lemma auth_enabled_iff_both_given_witness :
  authHeader_of Startup.online "alice" EmptyString = EmptyString.
Proof.
  apply (proj2 (auth_enabled_iff_both_given Startup.online "alice" EmptyString)).
  right. reflexivity.
Defined.

(** X10: a proxy started with only one of user name and password is open.
    The token [Run] hands to the handler is then empty, and the gate lets
    through exactly the requests that present no Proxy-Authorization value;
    with both given, a request that presents none is refused. *)
Theorem served_gate E flags st r :
  Run E flags = Serving st →
  Header_Get (req_Header r) "Proxy-Authorization" = EmptyString →
  authenticate r (su_authHeader st) =
    bool_decide (credential (GetString flags "username") = EmptyString ∨
                 credential (GetString flags "password") = EmptyString).
Proof.
  intros Hrun Hget.
  destruct (Run_serving E flags st Hrun)
    as (bind & port & cport & t4 & t6 & dns & mtu & _ & _ & _ & _ & _ & _ & _ & _ & _ &
        _ & _ & Hauth & _).
  unfold authenticate. rewrite Hget, Hauth. unfold authHeader_of.
  destruct (String.eqb_spec (credential (GetString flags "username")) EmptyString);
    destruct (String.eqb_spec (credential (GetString flags "password")) EmptyString);
    simpl; symmetry;
    first [apply bool_decide_eq_true; by auto
          |apply bool_decide_eq_false; by intros [?|?]].
Qed.

Lemma served_gate_witness :
  authenticate Sample.get_request (su_authHeader Startup.setup) = true.
Proof.
  rewrite (served_gate Startup.online Startup.defaults Startup.setup Sample.get_request).
  - vm_compute. reflexivity.
  - vm_compute. reflexivity.
  - reflexivity.
Defined.



(** X12: [Run] gives up on the DNS servers only when one of the servers
    it was given does not parse. *)
Theorem dns_refusal_has_a_culprit E flags :
  Run E flags = Refused "Failed to parse DNS server" →
  ∃ servers dns, GetStringArray flags "dns" = Some servers ∧
                 dns ∈ servers ∧ ParseAddr E dns = None.
Proof.
  unfold Run, or_refuse.
  destruct (ConfigLoaded E); simpl; [|done].
  destruct (GetString flags "sni-address") as [sni|]; [|done].
  destruct (GetEcPrivateKey E) as [priv|]; [|done].
  destruct (GetEcEndpointPublicKey E) as [pub|]; [|done].
  destruct (GenerateCert E priv) as [cert|]; [|done].
  destruct (PrepareTlsConfig E priv pub cert sni) as [tls|]; [|done].
  destruct (GetDuration flags "keepalive-period") as [ka|]; [|done].
  destruct (GetUint16 flags "initial-packet-size") as [ips|]; [|done].
  destruct (GetString flags "bind") as [bind|]; [|done].
  destruct (GetString flags "port") as [port|]; [|done].
  destruct (GetInt flags "connect-port") as [cport|]; [|done].
  destruct (GetBool flags "no-tunnel-ipv4") as [t4|]; [|done].
  destruct (GetBool flags "no-tunnel-ipv6") as [t6|]; [|done].
  destruct (local_addresses E t4 t6) as [msg|local] eqn:Hl.
  { unfold local_addresses in Hl.
    destruct t4, t6; simpl in Hl;
      repeat (destruct (ParseAddr E _); simpl in Hl; [|injection Hl as <-; done]);
      done. }
  destruct (GetStringArray flags "dns") as [dns|]; [|done].
  pose proof (parse_dns_acc E dns []) as Hacc.
  destruct (parse_dns E dns []) as [addrs|].
  - destruct (GetInt flags "mtu") as [mtu|]; [|done].
    destruct (GetDuration flags "reconnect-delay") as [rd|]; [|done].
    destruct (CreateNetTUN E local addrs mtu) as [tun|]; done.
  - intros _. destruct Hacc as (d & Hin & Hnone). by exists dns, d.
Qed.

Lemma dns_refusal_has_a_culprit_witness :
  ∃ servers dns, GetStringArray Startup.bad_dns "dns" = Some servers ∧
                 dns ∈ servers ∧ ParseAddr Startup.online dns = None.
Proof.
  apply (dns_refusal_has_a_culprit Startup.online Startup.bad_dns).
  vm_compute. reflexivity.
Defined.
